(** * The task API of nmmo (src/nmmo/task/task_api.py)

    A shallow embedding of [Task], [OngoingTask], [make_same_task],
    [nmmo_default_task] and [make_team_tasks], and the properties of
    the reward protocol and of the factories.

    Conventions of the embedding.
    - Python numbers are exact rationals ([Qc]): the reward arithmetic
      is read over the rationals, without rounding, NaN or infinities.
      A boolean returned by an evaluation function is the number it
      becomes under [* 1.0] (True is 1, False is 0).
    - Agent ids are Python ints ([Z]); [int(ent_id)] is the identity.
    - A Python exception is a value of [exn]; a call that may raise
      returns [exn + A].
    - Objects that are mutated in place and may be shared (the kwargs
      dicts of a task spec, the Task instances) live in a store and are
      named by their position in it. *)

From Stdlib Require Import ZArith QArith Qcanon.
From stdpp Require Import base option list gmap strings.

Local Open Scope Z_scope.

(** ** Python values and built-ins used by the module *)

Module Py.

(** Python numbers. *)
Abbreviation num := Qc.

Inductive exn : Type :=
| AssertionError (msg : string)
| IndexError
| KeyError (k : string)
| TypeError.

Definition result (A : Type) : Type := exn + A.

Definition ltb (x y : num) : bool := negb (Qle_bool y x).
Definition geb (x y : num) : bool := Qle_bool y x.

(** [min(a, b)] keeps [a] unless [b < a]; [max(a, b)] keeps [a]
    unless [b > a]. *)
Definition min (a b : num) : num := if ltb b a then b else a.
Definition max (a b : num) : num := if ltb a b then b else a.

(** [{k: f(k) for k in l}]: keys are inserted from left to right. *)
Definition dict_comp {V : Type} (f : Z → V) (l : list Z) : gmap Z V :=
  foldl (λ m k, <[k := f k]> m) ∅ l.

(** [l[i]] on a list with an int index: negative indices count from
    the end, anything else out of range raises IndexError. *)
Definition list_index {A : Type} (l : list A) (i : Z) : result A :=
  let n := Z.of_nat (length l) in
  let j := if (i <? 0)%Z then (n + i)%Z else i in
  if ((0 <=? j) && (j <? n))%Z
  then match l !! Z.to_nat j with
       | Some x => inr x
       | None => inl IndexError
       end
  else inl IndexError.

End Py.

Import Py.

(** Rationals written as decimals in the scenarios. *)
Definition dec (n : Z) (d : positive) : num := Q2Qc (n # d).

(** ** Task and OngoingTask *)

(** The two classes of the module; [_map_progress_to_reward] is the
  one method that [OngoingTask] overrides. *)
Inductive task_cls : Type := cls_Task | cls_OngoingTask.

Global Instance task_cls_eq_dec : EqDecision task_cls.
Proof. solve_decision. Defined.

(** The [assignee] argument of the constructor: an int or a sized
  iterable of ints. *)
Inductive assignee_arg : Type :=
| AInt (i : Z)
| AIter (l : list Z).

(** The entry of one agent in the [infos] dict. *)
Record info : Type := mkInfo { info_reward : num; info_progress : num }.

Section TaskModel.

(** [GS] is the game state, [E] the callables used as [eval_fn];
    [call ev gs] is what [ev(gs)] returns, read as a number. The
    evaluation is a pure function of the game state. *)
Context {GS E : Type}.
Variable call : E → GS → num.

(** The instance attributes, with the class of the instance. [name]
    is left out: the constructor writes it once, [__str__] reads it,
    and no other method does. *)
Record Task : Type := mkTask {
  cls : task_cls;
  eval_fn : E;
  assignee : list Z;
  progress : num;
  completed : bool;
  reward_multiplier : num
}.

(** [Task.__init__]. [tuple(set(assignee))] holds each id once, in
    the order in which the set is iterated, which Python does not
    specify; [elements] fixes one order. *)
Definition Task_init (c : task_cls) (ev : E) (a : assignee_arg)
    (m : num) : result Task :=
  match a with
  | AInt i => inr (mkTask c ev [i] 0%Qc false m)
  | AIter l =>
      if decide (0 < length l)%nat
      then inr (mkTask c ev (elements (list_to_set l : gset Z)) 0%Qc false m)
      else inl (AssertionError "Assignee cannot be empty")
  end.

(** [Task.reset] *)
Definition reset (t : Task) : Task :=
  mkTask (cls t) (eval_fn t) (assignee t) 0%Qc false (reward_multiplier t).

Definition set_progress (t : Task) (p : num) : Task :=
  mkTask (cls t) (eval_fn t) (assignee t) p (completed t) (reward_multiplier t).

Definition set_completed (t : Task) : Task :=
  mkTask (cls t) (eval_fn t) (assignee t) (progress t) true (reward_multiplier t).

(** [max(min(self._eval_fn(gs)*1.0,1.0),0.0)] *)
Definition clamped_eval (t : Task) (gs : GS) : num :=
  max (min (call (eval_fn t) gs * 1)%Qc 1%Qc) 0%Qc.

(** [Task._map_progress_to_reward] *)
Definition Task_map_progress_to_reward (t : Task) (gs : GS) : num * Task :=
  if completed t then (0%Qc, t)
  else
    let new_progress := clamped_eval t gs in
    let diff := (new_progress - progress t)%Qc in
    let t1 := set_progress t new_progress in
    let t2 := if geb (progress t1) 1%Qc then set_completed t1 else t1 in
    (diff, t2).

(** [OngoingTask._map_progress_to_reward] *)
Definition OngoingTask_map_progress_to_reward (t : Task) (gs : GS)
    : num * Task :=
  let t1 := set_progress t (clamped_eval t gs) in
  let t2 := if geb (progress t1) 1%Qc then set_completed t1 else t1 in
  (progress t2, t2).

(** Method dispatch on the class of the instance. *)
Definition _map_progress_to_reward (t : Task) (gs : GS) : num * Task :=
  match cls t with
  | cls_Task => Task_map_progress_to_reward t gs
  | cls_OngoingTask => OngoingTask_map_progress_to_reward t gs
  end.

(** [Task.compute_rewards]: the pair of dicts and the instance after
    the call. *)
Definition compute_rewards (t : Task) (gs : GS)
    : (gmap Z num * gmap Z info) * Task :=
  let '(r, t') := _map_progress_to_reward t gs in
  let reward := (r * reward_multiplier t')%Qc in
  let rewards := dict_comp (λ _, reward) (assignee t') in
  let infos := dict_comp (λ _, mkInfo reward (progress t')) (assignee t') in
  ((rewards, infos), t').

(** The rewards dict of each tick when [compute_rewards] is called
    once per game state, in order. *)
Fixpoint reward_stream (t : Task) (gss : list GS) : list (gmap Z num) :=
  match gss with
  | [] => []
  | gs :: gss' =>
      let '((rewards, _), t') := compute_rewards t gs in
      rewards :: reward_stream t' gss'
  end.

(** The instance after the same calls. *)
Definition run (t : Task) (gss : list GS) : Task :=
  foldl (λ t gs, (compute_rewards t gs).2) t gss.

(** What the environment can do to a constructed task. *)
Inductive reachable (t0 : Task) : Task → Prop :=
| reach_init : reachable t0 t0
| reach_compute t gs :
    reachable t0 t → reachable t0 (compute_rewards t gs).2
| reach_reset t : reachable t0 t → reachable t0 (reset t).

End TaskModel.

Arguments Task E : clear implicits.
Arguments mkTask {E} _ _ _ _ _ _.

(** ** Collaborators of the factories *)

(** Values that the kwargs of a task spec carry. *)
Inductive value : Type :=
| VStr (s : string)
| VInt (i : Z)
| VNum (q : num)
| VIds (ids : list Z)
| VCls (c : task_cls).

Global Instance value_eq_dec : EqDecision value.
Proof. solve_decision. Defined.

(** [v in strs] for a list of string constants. *)
Definition value_in (v : value) (strs : list string) : bool :=
  match v with
  | VStr s => bool_decide (s ∈ strs)
  | _ => false
  end.

(** A team id, the key of the [teams] dict: an int or a string. *)
Inductive team_key : Type :=
| KInt (i : Z)
| KStr (s : string).

Global Instance team_key_eq_dec : EqDecision team_key.
Proof. solve_decision. Defined.

(** The [teams] dict, in insertion order. *)
Definition teams_layout : Type := list (team_key * list Z).

(** [teams[team_id]] *)
Fixpoint teams_get (teams : teams_layout) (k : team_key) : result (list Z) :=
  match teams with
  | [] => inl (KeyError "team_id")
  | (k', members) :: rest =>
      if decide (k' = k) then inr members else teams_get rest k
  end.

(** [task_spec[team_id]]: a list takes int indices only. *)
Definition spec_index {A : Type} (task_spec : list A) (k : team_key) : result A :=
  match k with
  | KInt i => list_index task_spec i
  | KStr _ => inl TypeError
  end.

(** Modelled from the spec: nmmo/task/group.py is missing. A Group is
    an immutable, ordered and deduplicated handle over a set of agent
    ids, built from one id or from a sequence of ids, and non-empty. *)
Record Group : Type := mkGroup { agents : list Z }.

Definition Group_init (a : assignee_arg) : result Group :=
  match a with
  | AInt i => inr (mkGroup [i])
  | AIter l =>
      if decide (0 < length l)%nat
      then inr (mkGroup (remove_dups l))
      else inl (AssertionError "Group cannot be empty")
  end.

(** Modelled from the spec: nmmo/task/predicate_api.py and
    nmmo/task/base_predicates.py are missing. A predicate class is
    either a pre-built class, known by its name, or the class that the
    wrapping factory [define_predicate] synthesizes around a plain
    two-argument function. *)
Inductive pred_cls : Type :=
| PredClass (name : string)
| define_predicate (fn : string).

Global Instance pred_cls_eq_dec : EqDecision pred_cls.
Proof. solve_decision. Defined.

(** [bp.AllDead] *)
Definition AllDead : pred_cls := PredClass "AllDead".

(** The predicate argument of the factories: a class
    ([isinstance(predicate, type)]) or a plain function. *)
Inductive predicate_arg : Type :=
| PType (c : pred_cls)
| PFunction (fn : string).

(** Modelled from the spec: a predicate instance is its class
    instantiated with a subject Group and keyword parameters. *)
Record Predicate : Type := mkPredicate {
  pred_class : pred_cls;
  subject : Group;
  pred_kwargs : gmap string value
}.

(** ** The store: kwargs dicts and Task instances *)

Record state : Type := mkState {
  dicts : gmap nat (gmap string value);
  objects : list (Task Predicate)
}.

(** A computation that reads and writes the store and may raise; what
    was written before an exception stays written. *)
Definition M (A : Type) : Type := state → result A * state.

Global Instance M_ret : MRet M := λ A x s, (inr x, s).

Global Instance M_bind : MBind M := λ A B f m s,
  match m s with
  | (inr x, s') => f x s'
  | (inl e, s') => (inl e, s')
  end.

Definition raise {A : Type} (e : exn) : M A := λ s, (inl e, s).

Definition lift {A : Type} (r : result A) : M A := λ s, (r, s).

(** [assert b, msg] *)
Definition assert_ (b : bool) (msg : string) : M unit :=
  if b then mret () else raise (AssertionError msg).

(** The dict that a reference denotes. *)
Definition dict_at (s : state) (d : nat) : gmap string value :=
  default ∅ (dicts s !! d).

Definition dict_read (d : nat) : M (gmap string value) :=
  λ s, (inr (dict_at s d), s).

Definition dict_write (d : nat) (k : gmap string value) : M unit :=
  λ s, (inr (), mkState (<[d := k]> (dicts s)) (objects s)).

(** [key in kwargs] *)
Definition dict_contains (d : nat) (key : string) : M bool :=
  k ← dict_read d; mret (bool_decide (is_Some (k !! key))).

(** [kwargs.pop(key)] *)
Definition dict_pop (d : nat) (key : string) : M value :=
  k ← dict_read d;
  match k !! key with
  | Some v => dict_write d (delete key k);; mret v
  | None => raise (KeyError key)
  end.

(** [kwargs[key] = v] *)
Definition dict_set (d : nat) (key : string) (v : value) : M unit :=
  k ← dict_read d; dict_write d (<[key := v]> k).

(** A new Task instance: the constructor runs and the instance gets a
    reference of its own. *)
Definition alloc (t : Task Predicate) : M nat :=
  λ s, (inr (length (objects s)), mkState (dicts s) (objects s ++ [t])).

Definition new_Task (c : task_cls) (ev : Predicate) (a : assignee_arg)
    (m : num) : M nat :=
  t ← lift (Task_init c ev a m); alloc t.

(** Modelled from the spec: [Predicate.create_task(assignee,
    task_cls=Task, **kwargs)] binds the predicate to a new Task of the
    requested class and assignee, with fresh progress state and without
    changing the predicate; when no assignee is passed the task is
    assigned to the subject of the predicate (section 4.4: in
    [make_same_task] the assignee is the singleton of the id). The
    callers in this module pass no [reward_multiplier], so the task
    takes the default [1.0]. Calling something that is not a class
    raises TypeError. *)
Definition create_task (p : Predicate) (task_cls : value)
    (assignee : option assignee_arg) : M nat :=
  match task_cls with
  | VCls c => new_Task c p (default (AIter (agents (subject p))) assignee) 1%Qc
  | _ => raise TypeError
  end.

(** [[f(x) for x in l]] *)
Fixpoint list_comp {A B : Type} (f : A → M B) (l : list A) : M (list B) :=
  match l with
  | [] => mret []
  | x :: l' => y ← f x; ys ← list_comp f l'; mret (y :: ys)
  end.

(** ** The factories *)

(** [make_same_task(predicate, agent_list, task_cls, **kwargs)] *)
Definition make_same_task (predicate : predicate_arg) (agent_list : list Z)
    (task_cls : value) (kwargs : gmap string value) : M (list nat) :=
  match predicate with
  | PType c =>
      list_comp (λ agent_id,
        g ← lift (Group_init (AInt agent_id));
        create_task (mkPredicate c g kwargs) task_cls None) agent_list
  | PFunction fn =>
      let pred_cls := define_predicate fn in
      list_comp (λ agent_id,
        g ← lift (Group_init (AInt agent_id));
        create_task (mkPredicate pred_cls g kwargs) task_cls None) agent_list
  end.

Definition REWARD_TO : list string := ["agent"; "team"].
Definition VALID_TARGET : list string :=
  ["left_team"; "right_team"; "left_team_leader"; "right_team_leader"].

(** One entry of [task_spec]: [(reward_to, pred_cls, kwargs)], the
    kwargs dict by reference. *)
Definition spec_entry : Type := (value * predicate_arg * nat)%type.

Section TeamTasks.

(** [TeamHelper(teams).get_target_agent(team_id, target)]:
    nmmo/lib/team_helper.py is missing; the resolver of relative
    targets is taken as given, returning the agent ids of the target.
    [team_helper.teams] is the [teams] dict it was built from. *)
Variable get_target_agent : teams_layout → team_key → string → list Z.

(** The mapping of a relative target: [target] is popped, checked,
    resolved and stored back. Returns the resolved ids. *)
Definition map_target (teams : teams_layout) (team_id : team_key)
    (kwargs : nat) : M (list Z) :=
  target ← dict_pop kwargs "target";
  assert_ (value_in target VALID_TARGET) "Invalid target";;
  let ids := match target with
             | VStr s => get_target_agent teams team_id s
             | _ => []
             end in
  dict_set kwargs "target" (VIds ids);;
  mret ids.

(** [if 'task_cls' in kwargs: task_cls = kwargs.pop('task_cls')
    else: task_cls = Task] *)
Definition take_task_cls (kwargs : nat) : M value :=
  has_cls ← dict_contains kwargs "task_cls";
  if has_cls : bool then dict_pop kwargs "task_cls" else mret (VCls cls_Task).

(** [if 'target' in kwargs: ...]: the local [target] of this
    iteration, when it is bound. *)
Definition take_target (teams : teams_layout) (team_id : team_key)
    (kwargs : nat) : M (option (list Z)) :=
  has_target ← dict_contains kwargs "target";
  if has_target : bool
  then ids ← map_target teams team_id kwargs; mret (Some ids)
  else mret None.

(** [if not isinstance(pred_cls, type): pred_cls = define_predicate(pred_cls)] *)
Definition pred_cls_of (pred : predicate_arg) : pred_cls :=
  match pred with
  | PType c => c
  | PFunction fn => define_predicate fn
  end.

(** The special case: [bp.AllDead] is instantiated on the resolved
    target, with [target] removed from kwargs. [target] is read after
    [kwargs.pop('target')] succeeded, that is only when this iteration
    has bound it. *)
Definition special_predicate (pred_cls : pred_cls) (target : option (list Z))
    (kwargs : nat) : M (option Predicate) :=
  if decide (pred_cls = AllDead)
  then
    dict_pop kwargs "target";;
    g ← lift (Group_init (AIter (default [] target)));
    kw ← dict_read kwargs;
    mret (Some (mkPredicate pred_cls g kw))
  else mret None.

(** [# create the task]: the tasks of the team, appended to [tasks]. *)
Definition create_tasks (teams : teams_layout) (team_id : team_key)
    (reward_to : value) (pred_cls : pred_cls) (predicate : option Predicate)
    (task_cls : value) (kwargs : nat) (tasks : list nat) : M (list nat) :=
  if decide (reward_to = VStr "team") then
    assignee ← lift (teams_get teams team_id);
    match predicate with
    | None =>
        g ← lift (Group_init (AIter assignee));
        kw ← dict_read kwargs;
        t ← create_task (mkPredicate pred_cls g kw) task_cls None;
        mret (tasks ++ [t])
    | Some p =>
        t ← create_task p task_cls (Some (AIter assignee));
        mret (tasks ++ [t])
    end
  else if decide (reward_to = VStr "agent") then
    agent_list ← lift (teams_get teams team_id);
    match predicate with
    | None =>
        kw ← dict_read kwargs;
        ts ← make_same_task (PType pred_cls) agent_list task_cls kw;
        mret (tasks ++ ts)
    | Some p =>
        ts ← list_comp (λ agent_id,
                create_task p task_cls (Some (AInt agent_id))) agent_list;
        mret (tasks ++ ts)
    end
  else mret tasks.

(** The body of the loop once [team_id] and its spec entry are bound. *)
Definition assign_entry (teams : teams_layout) (team_id : team_key)
    (entry : spec_entry) (tasks : list nat) : M (list nat) :=
  let '(reward_to, pred, kwargs) := entry in
  assert_ (value_in reward_to REWARD_TO) "Wrong reward target";;
  task_cls ← take_task_cls kwargs;
  target ← take_target teams team_id kwargs;
  let pred_cls := pred_cls_of pred in
  predicate ← special_predicate pred_cls target kwargs;
  create_tasks teams team_id reward_to pred_cls predicate task_cls kwargs tasks.

(** [team_id = team_list[idx]] and [task_spec[team_id]] *)
Definition bound_entry (teams : teams_layout) (task_spec : list spec_entry)
    (idx : nat) : result (team_key * spec_entry) :=
  match teams.*1 !! idx with
  | Some team_id =>
      match spec_index task_spec team_id with
      | inr entry => inr (team_id, entry)
      | inl e => inl e
      end
  | None => inl IndexError
  end.

(** The body of the loop of [make_team_tasks] for position [idx]. *)
Definition team_tasks_step (teams : teams_layout) (task_spec : list spec_entry)
    (tasks : list nat) (idx : nat) : M (list nat) :=
  '(team_id, entry) ← lift (bound_entry teams task_spec idx);
  assign_entry teams team_id entry tasks.

(** The [for] loop over the positions. *)
Fixpoint team_tasks_loop (teams : teams_layout) (task_spec : list spec_entry)
    (tasks : list nat) (idxs : list nat) : M (list nat) :=
  match idxs with
  | [] => mret tasks
  | idx :: idxs' =>
      tasks' ← team_tasks_step teams task_spec tasks idx;
      team_tasks_loop teams task_spec tasks' idxs'
  end.

(** [make_team_tasks(teams, task_spec)] *)
Definition make_team_tasks (teams : teams_layout) (task_spec : list spec_entry)
    : M (list nat) :=
  team_tasks_loop teams task_spec []
    (seq 0 (Nat.min (length teams.*1) (length task_spec))).

End TeamTasks.

(** ** Method calls on stored Task instances *)

Section Objects.

Context {GS : Type}.

(** The evaluation of a predicate instance on a game state, a pure
    function of both (nmmo/task/predicate_api.py is missing). *)
Variable call : Predicate → GS → num.

(** [task.compute_rewards(gs)] on the instance that [l] refers to. *)
Definition compute_rewards_at (s : state) (l : nat) (gs : GS)
    : option ((gmap Z num * gmap Z info) * state) :=
  match objects s !! l with
  | Some t =>
      let '(out, t') := compute_rewards call t gs in
      Some (out, mkState (dicts s) (<[l := t']> (objects s)))
  | None => None
  end.

End Objects.

(** ** Vocabulary of the properties *)

(** The clamp of the specification: [x] brought into [[lo, hi]]. *)
Definition clamp (x lo hi : num) : num :=
  if ltb x lo then lo else if ltb hi x then hi else x.

(** The fields that no method writes. *)
Definition same_identity {E : Type} (t t' : Task E) : Prop :=
  cls t' = cls t ∧ eval_fn t' = eval_fn t ∧ assignee t' = assignee t
  ∧ reward_multiplier t' = reward_multiplier t.

(** The invariant of the default task. *)
Definition task_inv {E : Type} (t : Task E) : Prop :=
  (completed t = true ↔ (1 <= progress t)%Qc)
  ∧ (0 <= progress t)%Qc ∧ (progress t <= 1)%Qc.

(** Tasks that differ in their multiplier only. *)
Definition with_multiplier {E : Type} (t : Task E) (m : num) : Task E :=
  mkTask (cls t) (eval_fn t) (assignee t) (progress t) (completed t) m.

(** [m] times a rewards dict, entry by entry. *)
Definition scale_rewards (m : num) (rewards : gmap Z num) : gmap Z num :=
  Qcmult m <$> rewards.

(** [s'] is [s] with the dict at [d] replaced by [k]; the Task
    instances are the same. *)
Definition upd (s : state) (d : nat) (k : gmap string value) (s' : state)
    : Prop :=
  objects s' = objects s
  ∧ dict_at s' d = k
  ∧ ∀ d', d' ≠ d → dict_at s' d' = dict_at s d'.

(** A computation that leaves every kwargs dict alone. *)
Definition keeps_dicts {A : Type} (m : M A) : Prop :=
  ∀ s, dicts (m s).2 = dicts s.

(** The task that [make_same_task] builds for one agent. *)
Definition same_task_for (pc : pred_cls) (c : task_cls)
    (kwargs : gmap string value) (agent_id : Z) : Task Predicate :=
  mkTask c (mkPredicate pc (mkGroup [agent_id]) kwargs) [agent_id]
    0%Qc false 1%Qc.

(** A dict that an iteration has consumed: no [task_cls] entry and
    no symbolic [target]. *)
Definition consumed_form (k : gmap string value) : Prop :=
  k !! "task_cls" = None ∧ ∀ sym, k !! "target" ≠ Some (VStr sym).

(** ** Scenarios *)

(** An evaluation function given by its outputs tick by tick; the game
    state of a scenario is the tick number. *)
Definition tick_eval (outputs : list num) (tick : nat) : num :=
  nth tick outputs 0%Qc.

(** Calling an evaluation function that is a plain function. *)
Definition call_fn {GS : Type} (f : GS → num) (gs : GS) : num := f gs.

(** The function that returns 0.3, then 0.3, then 1.0. *)
Definition scenario_eval : nat → num :=
  tick_eval [dec 3 10; dec 3 10; dec 1 1].

(** The default Task of the scenario after construction: assignee 7,
    multiplier 2.0. *)
Definition scenario_task : Task (nat → num) :=
  mkTask cls_Task scenario_eval [7] 0%Qc false (dec 2 1).

(** An OngoingTask on a function that is constantly true. *)
Definition always_true : unit → num := λ _, 1%Qc.

Definition ongoing_sample : Task (unit → num) :=
  mkTask cls_OngoingTask always_true [5] 0%Qc false (dec 3 1).

(** A resolver for the scenarios: every relative target is agents 3
    and 4. *)
Definition sample_resolver : teams_layout → team_key → string → list Z :=
  λ _ _ _, [3; 4].

(** Teams 0 and 1, the ids being the positions. *)
Definition sample_teams : teams_layout := [(KInt 0, [1; 2]); (KInt 1, [3; 4])].

(** A store with one kwargs dict, holding a symbolic target and a
    task class. *)
Definition sample_store : state :=
  mkState {[ 0%nat := {[ "target" := VStr "left_team";
                         "task_cls" := VCls cls_OngoingTask ]} ]} [].

(** ** Further functions of the module *)

(** [bp.StayAlive] *)
Definition StayAlive : pred_cls := PredClass "StayAlive".

(** [nmmo_default_task(agent_list, test_mode)]; [test_mode] is None or
    a string. The lambda and [stay_alive_eval] that the body defines
    are plain functions, named here as Python names them. *)
Definition nmmo_default_task (agent_list : list Z) (test_mode : option string)
    : M (list nat) :=
  match test_mode with
  | None =>
      make_same_task (PType StayAlive) agent_list (VCls cls_OngoingTask) ∅
  | Some mode =>
      if decide (mode = "no_task") then mret []
      else if decide (mode = "dummy_eval_fn")
      then make_same_task (PFunction "<lambda>") agent_list
             (VCls cls_OngoingTask) ∅
      else make_same_task (PFunction "stay_alive_eval") agent_list
             (VCls cls_OngoingTask) ∅
  end.

(** What the functions of [nmmo_default_task] read of a game state:
    [gs.alive_agents]. *)
Record game_state : Type := mkGameState { alive_agents : list Z }.

(** [lambda gs, subject: True], as the number that [True * 1.0] is. *)
Definition dummy_eval_fn (gs : game_state) (subject : Group) : num := 1%Qc.

(** [stay_alive_eval(gs, subject)]:
    [all(agent_id in gs.alive_agents for agent_id in subject.agents)] *)
Definition stay_alive_eval (gs : game_state) (subject : Group) : num :=
  if forallb (λ agent_id, bool_decide (agent_id ∈ alive_agents gs))
       (agents subject)
  then 1%Qc else 0%Qc.

(** Modelled from the spec: nmmo/task/predicate_api.py is missing. An
    instance of the class that [define_predicate] synthesizes around a
    plain function evaluates the function on the game state and the
    subject of the instance. [other] stands for the evaluation of every
    other predicate. *)
Definition call_predicate (other : Predicate → game_state → num)
    (p : Predicate) (gs : game_state) : num :=
  match pred_class p with
  | define_predicate fn =>
      if decide (fn = "<lambda>") then dummy_eval_fn gs (subject p)
      else if decide (fn = "stay_alive_eval")
      then stay_alive_eval gs (subject p)
      else other p gs
  | PredClass _ => other p gs
  end.

(** The character [' ']. *)
Definition space : Ascii.ascii := Ascii.ascii_of_nat 32.

(** [s.replace(' ', '')] *)
Fixpoint remove_spaces (s : string) : string :=
  match s with
  | EmptyString => EmptyString
  | String c s' =>
      if Ascii.eqb c space then remove_spaces s'
      else String c (remove_spaces s')
  end.

Section MakeName.

(** [arg_to_string] of nmmo/task/predicate_api.py is missing; it is
    taken as given, over the type [A] of the values that are named. *)
Context {A : Type}.
Variable arg_to_string : A → string.

(** [f"{arg_to_string(key)}:{arg_to_string(arg)}"] *)
Definition name_part (item : A * A) : string :=
  (arg_to_string item.1 ++ ":" ++ arg_to_string item.2)%string.

(** [Task._make_name(class_name, **kwargs)], the kwargs in the order
    they were passed. *)
Definition _make_name (class_name : string) (kwargs : list (A * A)) : string :=
  let name := class_name :: (name_part <$> kwargs) in
  ("(" ++ remove_spaces (String.concat "_" name) ++ ")")%string.

End MakeName.


(** The rewards dict that pays [r] to every id of [ids]. *)
Definition pay_all (r : num) (ids : list Z) : gmap Z num :=
  dict_comp (λ _, r) ids.

(** * Properties *)

(** ** Numbers and dict comprehensions *)

Lemma geb_true (x y : num) : geb x y = true ↔ (y <= x)%Qc.
Proof. unfold geb. apply Qle_bool_iff. Qed.

Lemma ltb_true (x y : num) : ltb x y = true ↔ (x < y)%Qc.
Proof.
  unfold ltb. rewrite negb_true_iff. split.
  - intros H. apply Qcnot_le_lt. intros Hle.
    apply (proj2 (geb_true x y)) in Hle. unfold geb in Hle. congruence.
  - intros Hlt. destruct (Qle_bool y x) eqn:Hb; [|done].
    apply (proj1 (geb_true x y)) in Hb. by apply Qclt_not_le in Hlt.
Qed.

Lemma ltb_false (x y : num) : ltb x y = false ↔ (y <= x)%Qc.
Proof.
  unfold ltb. rewrite negb_false_iff. apply (geb_true x y).
Qed.

Lemma max_min_clamp (x : num) : max (min x 1%Qc) 0%Qc = clamp x 0%Qc 1%Qc.
Proof.
  unfold max, min, clamp.
  destruct (ltb 1%Qc x) eqn:H1; destruct (ltb x 0%Qc) eqn:H0; try done.
  exfalso. apply ltb_true in H1, H0.
  assert (1 < 0)%Qc as Hbad by (eapply Qclt_trans; eassumption).
  apply Qclt_not_le in Hbad. apply Hbad. by compute.
Qed.

Lemma clamp_unit_range (x : num) :
  (0 <= clamp x 0%Qc 1%Qc)%Qc ∧ (clamp x 0%Qc 1%Qc <= 1)%Qc.
Proof.
  unfold clamp.
  destruct (ltb x 0%Qc) eqn:H0; [done|].
  destruct (ltb 1%Qc x) eqn:H1; [done|].
  apply ltb_false in H0, H1. done.
Qed.

Lemma clamp_unit_id (x : num) :
  (0 <= x)%Qc → (x <= 1)%Qc → clamp x 0%Qc 1%Qc = x.
Proof.
  intros H0 H1. unfold clamp.
  apply ltb_false in H0, H1. by rewrite H0, H1.
Qed.

Lemma dict_comp_lookup {V : Type} (f : Z → V) (l : list Z) (k : Z) :
  dict_comp f l !! k = if decide (k ∈ l) then Some (f k) else None.
Proof.
  unfold dict_comp.
  assert (∀ m : gmap Z V,
    foldl (λ m k, <[k := f k]> m) m l !! k
    = if decide (k ∈ l) then Some (f k) else m !! k) as Hgen.
  { induction l as [|a l IH]; intros m; cbn [foldl].
    - rewrite decide_False; [done|]. apply not_elem_of_nil.
    - rewrite IH. destruct (decide (k ∈ l)) as [Hin|Hnin].
      + rewrite decide_True; [done|]. by right.
      + destruct (decide (a = k)) as [->|Hne].
        * rewrite lookup_insert_eq. rewrite decide_True; [done|]. by left.
        * rewrite lookup_insert_ne by done.
          rewrite decide_False; [done|].
          intros Hin. apply elem_of_cons in Hin as [->|Hin]; done. }
  rewrite Hgen. by destruct (decide (k ∈ l)).
Qed.

Lemma dict_comp_dom {V : Type} (f : Z → V) (l : list Z) :
  dom (dict_comp f l) = list_to_set l.
Proof.
  apply set_eq. intros k. rewrite elem_of_dom, dict_comp_lookup.
  rewrite elem_of_list_to_set.
  destruct (decide (k ∈ l)) as [Hin|Hnin]; split; intros H.
  - exact Hin.
  - by eexists.
  - by destruct H.
  - done.
Qed.

(** ** The state machine of a task *)

Section TaskFacts.

Context {GS E : Type}.
Variable call : E → GS → num.

Lemma clamped_eval_clamp (t : Task E) (gs : GS) :
  clamped_eval call t gs = clamp (call (eval_fn t) gs) 0%Qc 1%Qc.
Proof.
  unfold clamped_eval. rewrite Qcmult_1_r. apply max_min_clamp.
Qed.

Lemma clamped_eval_range (t : Task E) (gs : GS) :
  (0 <= clamped_eval call t gs)%Qc ∧ (clamped_eval call t gs <= 1)%Qc.
Proof. rewrite clamped_eval_clamp. apply clamp_unit_range. Qed.

Lemma map_progress_identity (t : Task E) (gs : GS) :
  same_identity t (_map_progress_to_reward call t gs).2.
Proof.
  unfold _map_progress_to_reward, Task_map_progress_to_reward,
    OngoingTask_map_progress_to_reward.
  destruct (cls t); [destruct (completed t)|]; simpl;
    repeat match goal with |- context [geb ?a ?b] => destruct (geb a b) end;
    by repeat split.
Qed.

Lemma compute_rewards_task (t : Task E) (gs : GS) :
  (compute_rewards call t gs).2 = (_map_progress_to_reward call t gs).2.
Proof.
  unfold compute_rewards. by destruct (_map_progress_to_reward call t gs).
Qed.

Lemma compute_rewards_identity (t : Task E) (gs : GS) :
  same_identity t (compute_rewards call t gs).2.
Proof. rewrite compute_rewards_task. apply map_progress_identity. Qed.

(** The rewards and infos dicts in terms of the shaped reward. *)
Lemma compute_rewards_dicts (t : Task E) (gs : GS) (i : Z) :
  let r := (_map_progress_to_reward call t gs).1 in
  let t' := (compute_rewards call t gs).2 in
  let reward := (r * reward_multiplier t)%Qc in
  (i ∈ assignee t →
     (compute_rewards call t gs).1.1 !! i = Some reward
     ∧ (compute_rewards call t gs).1.2 !! i
       = Some (mkInfo reward (progress t')))
  ∧ (i ∉ assignee t →
     (compute_rewards call t gs).1.1 !! i = None
     ∧ (compute_rewards call t gs).1.2 !! i = None).
Proof.
  pose proof (map_progress_identity t gs) as (_ & _ & Ha & Hm).
  unfold compute_rewards.
  destruct (_map_progress_to_reward call t gs) as [r t'] eqn:Heq.
  simpl in *. rewrite Ha, Hm, !dict_comp_lookup.
  split; intros Hi.
  - by rewrite !decide_True.
  - by rewrite !decide_False.
Qed.

End TaskFacts.

Section RewardPolicies.

Context {GS E : Type}.
Variable call : E → GS → num.

(** The default policy on a completed task: nothing is evaluated. *)
Lemma Task_map_completed (t : Task E) (gs : GS) :
  cls t = cls_Task → completed t = true →
  _map_progress_to_reward call t gs = (0%Qc, t).
Proof.
  intros Hc Hd. unfold _map_progress_to_reward, Task_map_progress_to_reward.
  by rewrite Hc, Hd.
Qed.

(** The default policy on an active task. *)
Lemma Task_map_active (t : Task E) (gs : GS) :
  cls t = cls_Task → completed t = false →
  let p := clamped_eval call t gs in
  let t' := (_map_progress_to_reward call t gs).2 in
  (_map_progress_to_reward call t gs).1 = (p - progress t)%Qc
  ∧ progress t' = p
  ∧ completed t' = geb p 1%Qc.
Proof.
  intros Hc Hd. unfold _map_progress_to_reward, Task_map_progress_to_reward.
  rewrite Hc, Hd. cbn [fst snd set_progress progress].
  by destruct (geb (clamped_eval call t gs) 1%Qc).
Qed.

(** The policy of OngoingTask, in any state. *)
Lemma OngoingTask_map (t : Task E) (gs : GS) :
  cls t = cls_OngoingTask →
  let p := clamped_eval call t gs in
  let t' := (_map_progress_to_reward call t gs).2 in
  (_map_progress_to_reward call t gs).1 = p
  ∧ progress t' = p
  ∧ completed t' = (geb p 1%Qc || completed t).
Proof.
  intros Hc.
  unfold _map_progress_to_reward, OngoingTask_map_progress_to_reward.
  rewrite Hc. cbn [fst snd set_progress progress].
  by destruct (geb (clamped_eval call t gs) 1%Qc).
Qed.

(** An evaluation of [1.0] is full progress. *)
Lemma clamped_eval_one (t : Task E) (gs : GS) :
  call (eval_fn t) gs = 1%Qc → clamped_eval call t gs = 1%Qc.
Proof.
  intros H. rewrite clamped_eval_clamp, H. by apply clamp_unit_id.
Qed.

Lemma reward_stream_length (gss : list GS) (t : Task E) :
  length (reward_stream call t gss) = length gss.
Proof.
  revert t. induction gss as [|gs gss IH]; intros t; [done|].
  cbn [reward_stream].
  destruct (compute_rewards call t gs) as [[rewards infos] t'].
  cbn [length]. by rewrite IH.
Qed.

(** The stream of an OngoingTask whose evaluation is [1.0] on every
    game state it is given. *)
Lemma ongoing_stream_of_ones (gss : list GS) (t : Task E) :
  cls t = cls_OngoingTask →
  (∀ gs, gs ∈ gss → call (eval_fn t) gs = 1%Qc) →
  ∀ rewards, rewards ∈ reward_stream call t gss →
  ∀ i, i ∈ assignee t → rewards !! i = Some (reward_multiplier t * 1)%Qc.
Proof.
  revert t. induction gss as [|gs gss IH]; intros t Hc Hone rewards Hin i Hi.
  - by apply elem_of_nil in Hin.
  - cbn [reward_stream] in Hin.
    pose proof (compute_rewards_dicts call t gs i) as [Hd _].
    pose proof (compute_rewards_identity call t gs) as (Hc' & He' & Ha' & Hm').
    pose proof (OngoingTask_map t gs Hc) as (Hr & _ & _).
    destruct (compute_rewards call t gs) as [[rewards0 infos0] t'].
    cbn [fst snd] in *.
    apply elem_of_cons in Hin as [->|Hin].
    + destruct (Hd Hi) as [-> _]. rewrite Hr.
      rewrite clamped_eval_one by (apply Hone; by left).
      f_equal. ring.
    + rewrite <- Hm'. apply (IH t'); try done.
      * congruence.
      * intros gs' Hgs'. rewrite He'. apply Hone. by right.
      * by rewrite Ha'.
Qed.

Lemma task_inv_init (c : task_cls) (ev : E) (a : assignee_arg) (m : num)
    (t : Task E) :
  Task_init c ev a m = inr t →
  task_inv t ∧ cls t = c ∧ eval_fn t = ev ∧ reward_multiplier t = m
  ∧ progress t = 0%Qc ∧ completed t = false.
Proof.
  assert (task_inv_zero : ∀ l, task_inv (mkTask c ev l 0%Qc false m)).
  { intros l. repeat split; try done; intros H; exfalso; by apply H. }
  unfold Task_init. destruct a as [i|l].
  - intros [= <-]. by repeat split; try apply task_inv_zero.
  - destruct (decide (0 < length l)%nat); [|done].
    intros [= <-]. by repeat split; try apply task_inv_zero.
Qed.

Lemma task_inv_reset (t : Task E) : task_inv (reset t).
Proof.
  unfold task_inv, reset; cbn.
  repeat split; try done; intros H; exfalso; by apply H.
Qed.

Lemma task_inv_compute (t : Task E) (gs : GS) :
  cls t = cls_Task → task_inv t → task_inv (compute_rewards call t gs).2.
Proof.
  intros Hc Hinv. rewrite compute_rewards_task.
  destruct (completed t) eqn:Hd.
  - by rewrite Task_map_completed.
  - destruct (Task_map_active t gs Hc Hd) as (_ & Hp & Hcomp).
    unfold task_inv. rewrite Hp, Hcomp.
    split; [apply geb_true | apply clamped_eval_range].
Qed.

Lemma map_progress_multiplier (t : Task E) (m : num) (gs : GS) :
  _map_progress_to_reward call (with_multiplier t m) gs
  = ((_map_progress_to_reward call t gs).1,
     with_multiplier (_map_progress_to_reward call t gs).2 m).
Proof.
  destruct t as [c ev a p d m0].
  unfold _map_progress_to_reward, Task_map_progress_to_reward,
    OngoingTask_map_progress_to_reward, clamped_eval, with_multiplier.
  cbn [cls eval_fn progress completed].
  destruct c; [destruct d|].
  all: cbn [set_progress set_completed cls eval_fn assignee progress
            completed reward_multiplier fst snd].
  all: try reflexivity.
  all: match goal with |- context [geb ?a ?b] => by destruct (geb a b) end.
Qed.

Lemma reward_stream_multiplier (gss : list GS) (t : Task E) (m : num) :
  reward_stream call (with_multiplier t m) gss
  = scale_rewards m <$> reward_stream call (with_multiplier t 1%Qc) gss.
Proof.
  revert t. induction gss as [|gs gss IH]; intros t; [done|].
  cbn [reward_stream]. unfold compute_rewards.
  rewrite !map_progress_multiplier.
  destruct (_map_progress_to_reward call t gs) as [r t'].
  cbn [fst snd with_multiplier reward_multiplier assignee].
  rewrite fmap_cons. f_equal; [|apply IH].
  apply map_eq. intros i. unfold scale_rewards.
  rewrite lookup_fmap, !dict_comp_lookup.
  destruct (decide (i ∈ assignee t')); [|done].
  change (Some (r * m)%Qc = Some (m * (r * 1))%Qc). f_equal. ring.
Qed.

End RewardPolicies.

(** ** The claims on the reward protocol *)

(** C1: a default Task that is already completed pays 0.0 to every id
    of its assignee, whatever the evaluation function returns on the
    game state, and the call leaves the task as it was (progress and
    completed included). *)
Theorem completed_task_pays_zero {GS E : Type} (call : E → GS → num)
    (t : Task E) (gs : GS) :
  cls t = cls_Task → completed t = true →
  (compute_rewards call t gs).2 = t
  ∧ dom (compute_rewards call t gs).1.1 = list_to_set (assignee t)
  ∧ ∀ i, i ∈ assignee t →
      (compute_rewards call t gs).1.1 !! i = Some 0%Qc.
Proof.
  intros Hc Hd. split; [|split].
  - rewrite compute_rewards_task. by rewrite Task_map_completed.
  - apply set_eq. intros i.
    pose proof (compute_rewards_dicts call t gs i) as [Hin Hout].
    rewrite elem_of_dom, elem_of_list_to_set.
    destruct (decide (i ∈ assignee t)) as [Hi|Hi].
    + destruct (Hin Hi) as [-> _]. split; [done|by eexists].
    + destruct (Hout Hi) as [-> _]. split; [by intros [? ?]|done].
  - intros i Hi.
    pose proof (compute_rewards_dicts call t gs i) as [Hin _].
    destruct (Hin Hi) as [-> _]. rewrite Task_map_completed by done.
    cbn [fst]. f_equal. ring.
Qed.

Lemma completed_task_pays_zero_witness :
  let t := run call_fn scenario_task [0; 1; 2]%nat in
  cls t = cls_Task ∧ completed t = true
  ∧ (compute_rewards call_fn t 0%nat).2 = t
  ∧ (compute_rewards call_fn t 0%nat).1.1 !! 7 = Some 0%Qc.
Proof.
  intros t.
  assert (cls t = cls_Task) as Hc by reflexivity.
  assert (completed t = true) as Hd by (vm_compute; reflexivity).
  destruct (completed_task_pays_zero call_fn t 0%nat Hc Hd) as (H1 & _ & H2).
  split; [exact Hc|]. split; [exact Hd|]. split; [exact H1|].
  apply H2. apply list_elem_of_here.
Defined.

(** C2: an OngoingTask stores the clamped evaluation as its progress
    on every call, completed or not, sets completed when the progress
    reaches 1, and pays the progress times the multiplier to every
    assignee; when the evaluation is 1.0 on every tick, every tick pays
    [reward_multiplier * 1.0]. *)
Theorem ongoing_task_pays_progress {GS E : Type} (call : E → GS → num)
    (t : Task E) (gs : GS) :
  cls t = cls_OngoingTask →
  let p := clamp (call (eval_fn t) gs) 0%Qc 1%Qc in
  progress (compute_rewards call t gs).2 = p
  ∧ ((1 <= p)%Qc → completed (compute_rewards call t gs).2 = true)
  ∧ (∀ i, i ∈ assignee t →
       (compute_rewards call t gs).1.1 !! i
       = Some (p * reward_multiplier t)%Qc)
  ∧ ∀ gss : list GS,
      (∀ gs', gs' ∈ gss → call (eval_fn t) gs' = 1%Qc) →
      length (reward_stream call t gss) = length gss
      ∧ ∀ rewards, rewards ∈ reward_stream call t gss →
        ∀ i, i ∈ assignee t →
          rewards !! i = Some (reward_multiplier t * 1)%Qc.
Proof.
  intros Hc p.
  destruct (OngoingTask_map call t gs Hc) as (Hr & Hp & Hd).
  rewrite clamped_eval_clamp in Hr, Hp, Hd. fold p in Hr, Hp, Hd.
  rewrite compute_rewards_task. repeat split.
  - exact Hp.
  - intros H1. rewrite Hd. apply geb_true in H1. by rewrite H1.
  - intros i Hi.
    pose proof (compute_rewards_dicts call t gs i) as [Hin _].
    destruct (Hin Hi) as [-> _]. by rewrite Hr.
  - apply reward_stream_length.
  - by apply ongoing_stream_of_ones.
Qed.

Lemma ongoing_task_pays_progress_witness :
  cls ongoing_sample = cls_OngoingTask
  ∧ (∀ gs', gs' ∈ [(); (); ()] → call_fn (eval_fn ongoing_sample) gs' = 1%Qc)
  ∧ ∀ rewards,
      rewards ∈ reward_stream call_fn ongoing_sample [(); (); ()] →
      rewards !! 5 = Some (dec 3 1 * 1)%Qc.
Proof.
  assert (cls ongoing_sample = cls_OngoingTask) as Hc by reflexivity.
  assert (∀ gs', gs' ∈ [(); (); ()] →
            call_fn (eval_fn ongoing_sample) gs' = 1%Qc) as Hone
    by (intros gs' _; reflexivity).
  destruct (ongoing_task_pays_progress call_fn ongoing_sample () Hc)
    as (_ & _ & _ & Hs).
  destruct (Hs [(); (); ()] Hone) as [_ Hall].
  split; [exact Hc|]. split; [exact Hone|].
  intros rewards Hin. apply (Hall rewards Hin). apply list_elem_of_here.
Defined.

(** C3: a default Task that is not completed pays the clamped
    evaluation minus the old progress, times the multiplier, to each
    assignee and stores the clamped evaluation as its progress. In the
    scenario (evaluations 0.3, 0.3, 1.0; multiplier 2.0; assignee 7)
    the three ticks pay 0.6, 0.0 and 1.4, and the task is completed
    after the third tick only. *)
Theorem default_task_pays_progress_diff :
  (∀ (GS E : Type) (call : E → GS → num) (t : Task E) (gs : GS),
     cls t = cls_Task → completed t = false →
     let p := clamp (call (eval_fn t) gs) 0%Qc 1%Qc in
     progress (compute_rewards call t gs).2 = p
     ∧ ∀ i, i ∈ assignee t →
         (compute_rewards call t gs).1.1 !! i
         = Some ((p - progress t) * reward_multiplier t)%Qc)
  ∧ Task_init cls_Task scenario_eval (AInt 7) (dec 2 1) = inr scenario_task
  ∧ reward_stream call_fn scenario_task [0; 1; 2]%nat
    = [ {[ 7 := dec 6 10 ]}; {[ 7 := 0%Qc ]}; {[ 7 := dec 14 10 ]} ]
  ∧ completed (run call_fn scenario_task [0]%nat) = false
  ∧ completed (run call_fn scenario_task [0; 1]%nat) = false
  ∧ completed (run call_fn scenario_task [0; 1; 2]%nat) = true.
Proof.
  split.
  - intros GS E call t gs Hc Hd p.
    destruct (Task_map_active call t gs Hc Hd) as (Hr & Hp & _).
    rewrite clamped_eval_clamp in Hr, Hp. fold p in Hr, Hp.
    rewrite compute_rewards_task. split; [exact Hp|].
    intros i Hi.
    pose proof (compute_rewards_dicts call t gs i) as [Hin _].
    destruct (Hin Hi) as [-> _]. by rewrite Hr.
  - repeat split; vm_compute; reflexivity.
Qed.

Lemma default_task_pays_progress_diff_witness :
  cls scenario_task = cls_Task ∧ completed scenario_task = false
  ∧ (compute_rewards call_fn scenario_task 0%nat).1.1 !! 7
    = Some ((clamp (dec 3 10) 0%Qc 1%Qc - 0) * dec 2 1)%Qc.
Proof.
  split; [reflexivity|]. split; [reflexivity|].
  apply (proj1 default_task_pays_progress_diff
           nat (nat → num) call_fn scenario_task 0%nat eq_refl eq_refl).
  apply list_elem_of_here.
Defined.

(** The difference that a default Task pays can be negative. *)
Example default_task_negative_reward :
  let t := mkTask cls_Task (tick_eval [dec 1 2; dec 1 5]) [7] 0%Qc false 1%Qc in
  reward_stream call_fn t [0; 1]%nat
  = [ {[ 7 := dec 1 2 ]}; {[ 7 := dec (-3) 10 ]} ].
Proof. vm_compute. reflexivity. Qed.

(** C4: on a default Task, completed is true exactly when progress is
    at least 1 and progress lies in [0,1] after construction, after
    every compute_rewards call and after reset; no operation changes
    the assignee or the evaluation function. *)
Theorem default_task_invariant {GS E : Type} (call : E → GS → num)
    (ev : E) (a : assignee_arg) (m : num) (t0 t : Task E) :
  Task_init cls_Task ev a m = inr t0 →
  reachable call t0 t →
  (completed t = true ↔ (1 <= progress t)%Qc)
  ∧ (0 <= progress t)%Qc ∧ (progress t <= 1)%Qc
  ∧ assignee t = assignee t0
  ∧ eval_fn t = ev.
Proof.
  intros Hinit Hreach.
  destruct (task_inv_init _ _ _ _ _ Hinit) as (Hinv0 & Hc0 & He0 & _).
  assert (task_inv t ∧ same_identity t0 t) as [(H1 & H2 & H3) (_ & He & Ha & _)].
  { induction Hreach as [|t gs _ [IHinv IHid]|t _ [IHinv IHid]].
    - split; [exact Hinv0|]. by repeat split.
    - destruct IHid as (Hc & He & Ha & Hm).
      pose proof (compute_rewards_identity call t gs) as (Hc' & He' & Ha' & Hm').
      split; [|repeat split; congruence].
      apply task_inv_compute; [congruence|done].
    - split; [apply task_inv_reset|]. apply IHid. }
  split; [exact H1|]. split; [exact H2|]. split; [exact H3|].
  split; [exact Ha|congruence].
Qed.

Lemma default_task_invariant_witness :
  let t := (compute_rewards call_fn scenario_task 0%nat).2 in
  Task_init cls_Task scenario_eval (AInt 7) (dec 2 1) = inr scenario_task
  ∧ reachable call_fn scenario_task t
  ∧ (completed t = true ↔ (1 <= progress t)%Qc)
  ∧ assignee t = [7].
Proof.
  intros t.
  assert (Task_init cls_Task scenario_eval (AInt 7) (dec 2 1)
          = inr scenario_task) as Hinit by reflexivity.
  assert (reachable call_fn scenario_task t) as Hreach
    by (apply reach_compute, reach_init).
  destruct (default_task_invariant call_fn _ _ _ _ _ Hinit Hreach)
    as (Hiff & _ & _ & Ha & _).
  split; [exact Hinit|]. split; [exact Hreach|]. split; [exact Hiff|exact Ha].
Defined.

(** C8: for every sequence of game states (hence of evaluation
    outputs) and every multiplier [m], the rewards of each tick of a
    Task or OngoingTask built with multiplier [m] are [m] times those
    of the task built alike with multiplier 1.0. *)
Theorem multiplier_linearity {GS E : Type} (call : E → GS → num)
    (c : task_cls) (ev : E) (a : assignee_arg) (m : num)
    (t_m t_1 : Task E) (gss : list GS) :
  Task_init c ev a m = inr t_m →
  Task_init c ev a 1%Qc = inr t_1 →
  reward_stream call t_m gss
  = scale_rewards m <$> reward_stream call t_1 gss.
Proof.
  intros Hm H1.
  assert (t_m = with_multiplier t_1 m ∧ t_1 = with_multiplier t_1 1%Qc)
    as [-> Heq].
  { unfold Task_init in Hm, H1. destruct a as [i|l].
    - injection Hm as <-. injection H1 as <-. done.
    - destruct (decide (0 < length l)%nat); [|done].
      injection Hm as <-. injection H1 as <-. done. }
  rewrite Heq at 2. apply reward_stream_multiplier.
Qed.

Lemma multiplier_linearity_witness :
  Task_init cls_Task scenario_eval (AInt 7) (dec 2 1) = inr scenario_task
  ∧ Task_init cls_Task scenario_eval (AInt 7) 1%Qc
    = inr (with_multiplier scenario_task 1%Qc)
  ∧ reward_stream call_fn scenario_task [0; 1; 2]%nat
    = scale_rewards (dec 2 1)
      <$> reward_stream call_fn (with_multiplier scenario_task 1%Qc)
            [0; 1; 2]%nat.
Proof.
  split; [reflexivity|]. split; [reflexivity|].
  apply (multiplier_linearity call_fn cls_Task scenario_eval (AInt 7));
    reflexivity.
Defined.

(** C9: the assignee (1, 1, 2) is stored as two ids, 1 and 2; and on
    any task every stored assignee id gets the same reward and the same
    info record, made of that reward and the progress of the task. *)
Theorem dedup_assignee_same_reward :
  (∀ (E : Type) (c : task_cls) (ev : E) (m : num),
     ∃ t, Task_init c ev (AIter [1; 1; 2]) m = inr t
          ∧ length (assignee t) = 2%nat
          ∧ ∀ i, i ∈ assignee t ↔ i = 1 ∨ i = 2)
  ∧ (∀ (GS E : Type) (call : E → GS → num) (t : Task E) (gs : GS),
     ∃ reward : num,
       ∀ i, i ∈ assignee t →
         (compute_rewards call t gs).1.1 !! i = Some reward
         ∧ (compute_rewards call t gs).1.2 !! i
           = Some (mkInfo reward (progress (compute_rewards call t gs).2))).
Proof.
  split.
  - intros E c ev m. eexists. split; [reflexivity|].
    cbn [assignee]. split; [by vm_compute|].
    intros i. rewrite elem_of_elements, elem_of_list_to_set.
    rewrite !elem_of_cons, elem_of_nil. tauto.
  - intros GS E call t gs. eexists. intros i Hi.
    pose proof (compute_rewards_dicts call t gs i) as [Hin _].
    apply (Hin Hi).
Qed.

Lemma dedup_assignee_same_reward_witness :
  let t := mkTask cls_Task scenario_eval
             (elements (list_to_set [1; 1; 2] : gset Z)) 0%Qc false (dec 2 1) in
  1 ∈ assignee t ∧ 2 ∈ assignee t
  ∧ (compute_rewards call_fn t 0%nat).1.1 !! 1
    = (compute_rewards call_fn t 0%nat).1.1 !! 2
  ∧ (compute_rewards call_fn t 0%nat).1.2 !! 1
    = (compute_rewards call_fn t 0%nat).1.2 !! 2.
Proof.
  intros t.
  assert (1 ∈ assignee t) as H1
    by (apply elem_of_elements, elem_of_list_to_set, list_elem_of_here).
  assert (2 ∈ assignee t) as H2
    by (apply elem_of_elements, elem_of_list_to_set;
        do 2 apply list_elem_of_further; apply list_elem_of_here).
  destruct (proj2 dedup_assignee_same_reward nat (nat → num) call_fn t 0%nat)
    as [reward Hall].
  destruct (Hall 1 H1) as [Hr1 Hi1]. destruct (Hall 2 H2) as [Hr2 Hi2].
  split; [exact H1|]. split; [exact H2|].
  split; [by rewrite Hr1, Hr2|by rewrite Hi1, Hi2].
Defined.

(** The stored assignee never holds an id twice. *)
Lemma Task_init_assignee {E : Type} (c : task_cls) (ev : E)
    (a : assignee_arg) (m : num) (t : Task E) :
  Task_init c ev a m = inr t →
  NoDup (assignee t)
  ∧ ∀ i, i ∈ assignee t ↔
         match a with AInt j => i = j | AIter l => i ∈ l end.
Proof.
  unfold Task_init. destruct a as [j|l].
  - intros [= <-]. cbn [assignee]. split.
    + apply NoDup_singleton.
    + intros i. by rewrite list_elem_of_singleton.
  - destruct (decide (0 < length l)%nat); [|done].
    intros [= <-]. cbn [assignee]. split.
    + apply NoDup_elements.
    + intros i. by rewrite elem_of_elements, elem_of_list_to_set.
Qed.

(** ** The store under the operations of the factories *)

Lemma upd_refl (s : state) (d : nat) : upd s d (dict_at s d) s.
Proof. by repeat split. Qed.

Lemma upd_trans (s s1 s2 : state) (d : nat) (k1 k2 : gmap string value) :
  upd s d k1 s1 → upd s1 d k2 s2 → upd s d k2 s2.
Proof.
  intros (Ho1 & _ & Hf1) (Ho2 & Hk2 & Hf2). repeat split.
  - congruence.
  - exact Hk2.
  - intros d' Hd'. rewrite Hf2, Hf1; done.
Qed.

Lemma upd_same_dicts (s s1 s2 : state) (d : nat) (k : gmap string value) :
  upd s d k s1 → dicts s2 = dicts s1 → 
  dict_at s2 d = k ∧ ∀ d', d' ≠ d → dict_at s2 d' = dict_at s d'.
Proof.
  intros (_ & Hk & Hf) Heq. unfold dict_at in *. rewrite Heq. done.
Qed.

Lemma bind_run {A B : Type} (m : M A) (f : A → M B) (s : state) :
  (m ≫= f) s = match m s with
               | (inr x, s') => f x s'
               | (inl e, s') => (inl e, s')
               end.
Proof. reflexivity. Qed.

Lemma dict_write_upd (d : nat) (k : gmap string value) (s : state) :
  ∃ s', dict_write d k s = (inr (), s') ∧ upd s d k s'.
Proof.
  eexists. split; [reflexivity|]. unfold upd, dict_at; cbn. repeat split.
  - by rewrite lookup_insert_eq.
  - intros d' Hd'. by rewrite lookup_insert_ne.
Qed.

Lemma dict_contains_run (d : nat) (key : string) (s : state) :
  dict_contains d key s
  = (inr (bool_decide (is_Some (dict_at s d !! key))), s).
Proof. reflexivity. Qed.

Lemma dict_pop_run (d : nat) (key : string) (s : state) :
  match dict_at s d !! key with
  | Some v => ∃ s', dict_pop d key s = (inr v, s')
                    ∧ upd s d (delete key (dict_at s d)) s'
  | None => dict_pop d key s = (inl (KeyError key), s)
  end.
Proof.
  unfold dict_pop. rewrite bind_run. unfold dict_read.
  destruct (dict_at s d !! key) as [v|] eqn:Hk; [|done].
  destruct (dict_write_upd d (delete key (dict_at s d)) s) as (s' & Hw & Hu).
  exists s'. split; [|exact Hu]. rewrite bind_run, Hw. done.
Qed.

Lemma dict_set_run (d : nat) (key : string) (v : value) (s : state) :
  ∃ s', dict_set d key v s = (inr (), s')
        ∧ upd s d (<[key := v]> (dict_at s d)) s'.
Proof.
  unfold dict_set. rewrite bind_run. unfold dict_read.
  apply dict_write_upd.
Qed.

Lemma take_task_cls_run (d : nat) (s : state) :
  ∃ s', take_task_cls d s
        = (inr (default (VCls cls_Task) (dict_at s d !! "task_cls")), s')
        ∧ upd s d (delete "task_cls" (dict_at s d)) s'.
Proof.
  unfold take_task_cls. rewrite bind_run, dict_contains_run.
  pose proof (dict_pop_run d "task_cls" s) as Hpop.
  destruct (dict_at s d !! "task_cls") as [v|] eqn:Hk.
  - rewrite bool_decide_eq_true_2 by by eexists. exact Hpop.
  - rewrite bool_decide_eq_false_2 by by intros [? ?].
    exists s. split; [done|].
    rewrite delete_id by done. apply upd_refl.
Qed.

Section TeamTaskFacts.

Variable get_target_agent : teams_layout → team_key → string → list Z.

Lemma value_in_VStr (v : value) (strs : list string) :
  value_in v strs = true → ∃ sym, v = VStr sym ∧ sym ∈ strs.
Proof.
  destruct v as [sym| | | |]; try done. cbn.
  intros H%bool_decide_eq_true. by exists sym.
Qed.

(** What [take_target] does, by the [target] entry of the dict. *)
Lemma take_target_run (teams : teams_layout) (team_id : team_key)
    (d : nat) (s : state) :
  match dict_at s d !! "target" with
  | None => take_target get_target_agent teams team_id d s = (inr None, s)
  | Some v =>
      if value_in v VALID_TARGET
      then ∃ sym s', v = VStr sym ∧ sym ∈ VALID_TARGET
             ∧ take_target get_target_agent teams team_id d s
               = (inr (Some (get_target_agent teams team_id sym)), s')
             ∧ upd s d (<["target" :=
                           VIds (get_target_agent teams team_id sym)]>
                        (dict_at s d)) s'
      else ∃ s', take_target get_target_agent teams team_id d s
                 = (inl (AssertionError "Invalid target"), s')
                 ∧ upd s d (delete "target" (dict_at s d)) s'
  end.
Proof.
  unfold take_target. rewrite bind_run, dict_contains_run.
  pose proof (dict_pop_run d "target" s) as Hpop.
  destruct (dict_at s d !! "target") as [v|] eqn:Hk.
  - rewrite bool_decide_eq_true_2 by by eexists.
    destruct Hpop as (s1 & Hpop & Hu1).
    unfold map_target. rewrite !bind_run, Hpop.
    destruct (value_in v VALID_TARGET) eqn:Hv.
    + destruct (value_in_VStr _ _ Hv) as (sym & -> & Hsym).
      cbn [assert_]. rewrite bind_run. cbn [mret M_ret].
      destruct (dict_set_run d "target"
                  (VIds (get_target_agent teams team_id sym)) s1)
        as (s2 & Hset & Hu2).
      exists sym, s2. split; [done|]. split; [done|].
      rewrite bind_run, Hset. split; [done|].
      eapply upd_trans; [exact Hu1|].
      destruct Hu1 as (_ & Hk1 & _). rewrite Hk1 in Hu2.
      by rewrite insert_delete_eq in Hu2.
    + exists s1. by split.
  - by rewrite bool_decide_eq_false_2 by by intros [? ?].
Qed.

(** What [special_predicate] does. *)
Lemma special_predicate_run (pc : pred_cls) (target : option (list Z))
    (d : nat) (s : state) :
  if decide (pc = AllDead)
  then match dict_at s d !! "target" with
       | None => special_predicate pc target d s
                 = (inl (KeyError "target"), s)
       | Some _ =>
           ∃ s', upd s d (delete "target" (dict_at s d)) s'
             ∧ special_predicate pc target d s
               = match Group_init (AIter (default [] target)) with
                 | inr g =>
                     (inr (Some (mkPredicate pc g
                                   (delete "target" (dict_at s d)))), s')
                 | inl e => (inl e, s')
                 end
       end
  else special_predicate pc target d s = (inr None, s).
Proof.
  unfold special_predicate. destruct (decide (pc = AllDead)) as [_|_]; [|done].
  rewrite bind_run.
  pose proof (dict_pop_run d "target" s) as Hpop.
  destruct (dict_at s d !! "target") as [v|] eqn:Hk.
  - destruct Hpop as (s1 & -> & Hu1). exists s1. split; [done|].
    rewrite bind_run. unfold lift.
    destruct (Group_init (AIter (default [] target))) as [err|g]; [done|].
    rewrite bind_run. unfold dict_read. cbn [mret M_ret].
    by destruct Hu1 as (_ & -> & _).
  - by rewrite Hpop.
Qed.

End TeamTaskFacts.

(** ** Creating tasks *)

Lemma keeps_dicts_ret {A : Type} (x : A) : keeps_dicts (mret x).
Proof. by intros s. Qed.

Lemma keeps_dicts_lift {A : Type} (r : result A) : keeps_dicts (lift r).
Proof. by intros s. Qed.

Lemma keeps_dicts_raise {A : Type} (e : exn) : keeps_dicts (raise (A:=A) e).
Proof. by intros s. Qed.

Lemma keeps_dicts_bind {A B : Type} (m : M A) (f : A → M B) :
  keeps_dicts m → (∀ x, keeps_dicts (f x)) → keeps_dicts (m ≫= f).
Proof.
  intros Hm Hf s. rewrite bind_run. specialize (Hm s).
  destruct (m s) as [[e|x] s1]; cbn [snd] in *; [done|].
  by rewrite Hf.
Qed.

Lemma keeps_dicts_read (d : nat) : keeps_dicts (dict_read d).
Proof. by intros s. Qed.

Lemma keeps_dicts_create_task (p : Predicate) (task_cls : value)
    (a : option assignee_arg) :
  keeps_dicts (create_task p task_cls a).
Proof.
  unfold create_task. destruct task_cls; try apply keeps_dicts_raise.
  unfold new_Task. apply keeps_dicts_bind; [apply keeps_dicts_lift|].
  by intros t s.
Qed.

Lemma keeps_dicts_list_comp {A B : Type} (f : A → M B) (l : list A) :
  (∀ x, keeps_dicts (f x)) → keeps_dicts (list_comp f l).
Proof.
  intros Hf. induction l as [|x l IH]; cbn [list_comp].
  - apply keeps_dicts_ret.
  - apply keeps_dicts_bind; [apply Hf|]. intros y.
    apply keeps_dicts_bind; [apply IH|]. intros ys. apply keeps_dicts_ret.
Qed.

Lemma keeps_dicts_make_same_task (predicate : predicate_arg)
    (agent_list : list Z) (task_cls : value) (kwargs : gmap string value) :
  keeps_dicts (make_same_task predicate agent_list task_cls kwargs).
Proof.
  unfold make_same_task.
  destruct predicate; apply keeps_dicts_list_comp; intros agent_id;
    (apply keeps_dicts_bind; [apply keeps_dicts_lift|]);
    intros g; apply keeps_dicts_create_task.
Qed.

Lemma keeps_dicts_create_tasks (teams : teams_layout) (team_id : team_key)
    (reward_to : value) (pc : pred_cls) (predicate : option Predicate)
    (task_cls : value) (kwargs : nat) (tasks : list nat) :
  keeps_dicts
    (create_tasks teams team_id reward_to pc predicate task_cls kwargs tasks).
Proof.
  unfold create_tasks.
  repeat first
    [ apply keeps_dicts_ret | apply keeps_dicts_lift | apply keeps_dicts_read
    | apply keeps_dicts_create_task | apply keeps_dicts_make_same_task
    | apply keeps_dicts_list_comp; intros ?
    | apply keeps_dicts_bind; [|intros ?]
    | case_decide
    | match goal with |- context [match ?p with Some _ => _ | None => _ end] =>
        destruct p end ].
Qed.

Lemma Task_init_singleton {E : Type} (c : task_cls) (ev : E) (i : Z) (m : num) :
  Task_init c ev (AIter [i]) m = inr (mkTask c ev [i] 0%Qc false m).
Proof.
  unfold Task_init. cbn [length]. rewrite decide_True by lia.
  do 2 f_equal. cbn [list_to_set foldr].
  rewrite (right_id_L ∅ (∪)). apply elements_singleton.
Qed.

Lemma create_task_run (p : Predicate) (c : task_cls)
    (a : option assignee_arg) (s : state) :
  create_task p (VCls c) a s
  = match Task_init c p (default (AIter (agents (subject p))) a) 1%Qc with
    | inr t => (inr (length (objects s)),
                mkState (dicts s) (objects s ++ [t]))
    | inl e => (inl e, s)
    end.
Proof.
  unfold create_task, new_Task. rewrite bind_run. unfold lift.
  by destruct (Task_init c p _ 1%Qc).
Qed.

(** [make_same_task] in closed form: it cannot fail, and appends one
    new instance per agent, in the order of [agent_list]. *)
Lemma make_same_task_run (predicate : predicate_arg) (agent_list : list Z)
    (c : task_cls) (kwargs : gmap string value) (s : state) :
  make_same_task predicate agent_list (VCls c) kwargs s
  = (inr (seq (length (objects s)) (length agent_list)),
     mkState (dicts s)
       (objects s
        ++ (same_task_for (pred_cls_of predicate) c kwargs <$> agent_list))).
Proof.
  assert (∀ pc,
    list_comp (λ agent_id,
      g ← lift (Group_init (AInt agent_id));
      create_task (mkPredicate pc g kwargs) (VCls c) None) agent_list s
    = (inr (seq (length (objects s)) (length agent_list)),
       mkState (dicts s)
         (objects s ++ (same_task_for pc c kwargs <$> agent_list)))) as Hgen.
  { intros pc. revert s.
    induction agent_list as [|a l IH]; intros s; cbn [list_comp].
    - cbn. rewrite app_nil_r. by destruct s.
    - rewrite bind_run, bind_run. unfold lift. cbn [Group_init].
      rewrite create_task_run. cbn [default subject agents].
      rewrite Task_init_singleton, bind_run, IH.
      cbn [mret M_ret objects dicts].
      rewrite length_app, Nat.add_1_r. cbn [length seq fmap list_fmap].
      by rewrite <- app_assoc. }
  unfold make_same_task. destruct predicate; apply Hgen.
Qed.

Lemma compute_rewards_at_frame {GS : Type} (call : Predicate → GS → num)
    (s s' : state) (l l' : nat) (gs : GS)
    (out : gmap Z num * gmap Z info) :
  compute_rewards_at call s l gs = Some (out, s') →
  l' ≠ l → objects s' !! l' = objects s !! l'.
Proof.
  unfold compute_rewards_at.
  destruct (objects s !! l) as [t|]; [|done].
  destruct (compute_rewards call t gs) as [out' t'].
  intros [= _ <-] Hne. cbn. by rewrite list_lookup_insert_ne.
Qed.

(** C7: [make_same_task] returns one new Task per id of [agent_list],
    in the order of the list; each has the singleton of its id as
    assignee, fresh progress state of its own that a call on another
    of the tasks does not touch, and the same predicate class and
    kwargs as the others. *)
Theorem make_same_task_one_task_per_agent (predicate : predicate_arg)
    (agent_list : list Z) (c : task_cls) (kwargs : gmap string value)
    (s : state) :
  ∃ tasks s',
    make_same_task predicate agent_list (VCls c) kwargs s = (inr tasks, s')
    ∧ length tasks = length agent_list
    ∧ NoDup tasks
    ∧ (∀ l t, objects s !! l = Some t →
         objects s' !! l = Some t ∧ l ∉ tasks)
    ∧ (∀ k agent_id, agent_list !! k = Some agent_id →
         ∃ l t, tasks !! k = Some l ∧ objects s' !! l = Some t
           ∧ cls t = c ∧ assignee t = [agent_id]
           ∧ progress t = 0%Qc ∧ completed t = false
           ∧ pred_class (eval_fn t) = pred_cls_of predicate
           ∧ pred_kwargs (eval_fn t) = kwargs
           ∧ agents (subject (eval_fn t)) = [agent_id])
    ∧ (∀ (GS : Type) (call : Predicate → GS → num) (gs : GS) (l : nat),
         l ∈ tasks →
         ∃ out s'', compute_rewards_at call s' l gs = Some (out, s'')
           ∧ ∀ l', l' ≠ l → objects s'' !! l' = objects s' !! l').
Proof.
  eexists _, _. split; [apply make_same_task_run|].
  cbn [objects]. split; [apply length_seq|]. split; [apply NoDup_seq|].
  split; [|split].
  - intros l t Hl. split.
    + by apply lookup_app_l_Some.
    + rewrite elem_of_seq. apply lookup_lt_Some in Hl. lia.
  - intros k agent_id Hk.
    exists (length (objects s) + k)%nat,
      (same_task_for (pred_cls_of predicate) c kwargs agent_id).
    split; [|split].
    + apply lookup_seq. split; [done|]. by apply lookup_lt_Some in Hk.
    + rewrite lookup_app_r by lia.
      replace (length (objects s) + k - length (objects s))%nat with k by lia.
      by rewrite list_lookup_fmap, Hk.
    + by repeat split.
  - intros GS call gs l Hl. apply elem_of_seq in Hl.
    assert (is_Some ((objects s
              ++ (same_task_for (pred_cls_of predicate) c kwargs
                  <$> agent_list)) !! l)) as [t Ht].
    { apply lookup_lt_is_Some. rewrite length_app, length_fmap. lia. }
    destruct (compute_rewards call t gs) as [out t'] eqn:Hcr.
    eexists out, _. split.
    + unfold compute_rewards_at. cbn [objects]. rewrite Ht, Hcr. reflexivity.
    + intros l' Hne. cbn [objects]. by rewrite list_lookup_insert_ne.
Qed.

Lemma make_same_task_one_task_per_agent_witness :
  ∃ tasks s',
    make_same_task (PFunction "pred") [10; 20; 30] (VCls cls_Task) ∅
      (mkState ∅ []) = (inr tasks, s')
    ∧ length tasks = 3%nat ∧ NoDup tasks.
Proof.
  destruct (make_same_task_one_task_per_agent (PFunction "pred")
              [10; 20; 30] cls_Task ∅ (mkState ∅ []))
    as (tasks & s' & Hrun & Hlen & Hnd & _).
  exists tasks, s'. split; [exact Hrun|]. split; [exact Hlen|exact Hnd].
Defined.

(** [make_same_task(pred, [10, 20, 30])] returns three tasks, for 10,
    20 and 30 in this order. *)
Example make_same_task_three_agents :
  let out := make_same_task (PFunction "pred") [10; 20; 30] (VCls cls_Task) ∅
               (mkState ∅ []) in
  out.1 = inr [0; 1; 2]%nat
  ∧ assignee <$> objects out.2 = [[10]; [20]; [30]].
Proof. by vm_compute. Qed.

(** ** The loop of make_team_tasks *)

Section TeamTaskLoop.

Variable get_target_agent : teams_layout → team_key → string → list Z.

Lemma dict_at_same_dicts (s s' : state) (d : nat) :
  dicts s' = dicts s → dict_at s' d = dict_at s d.
Proof. unfold dict_at. by intros ->. Qed.

(** The kwargs dict of a bound entry after the body of the loop, by
    cases on what the dict held; no other dict changes. *)
Lemma assign_entry_dicts (teams : teams_layout) (team_id : team_key)
    (reward_to : value) (pred : predicate_arg) (d : nat) (tasks : list nat)
    (s s' : state) (r : result (list nat)) :
  assign_entry get_target_agent teams team_id (reward_to, pred, d) tasks s
  = (r, s') →
  let k := dict_at s d in
  let k1 := delete "task_cls" k in
  (∀ d', d' ≠ d → dict_at s' d' = dict_at s d')
  ∧ if value_in reward_to REWARD_TO
    then match k !! "target" with
         | None =>
             dict_at s' d = k1
             ∧ (pred_cls_of pred = AllDead → r = inl (KeyError "target"))
         | Some v =>
             if value_in v VALID_TARGET
             then ∃ sym, v = VStr sym ∧ sym ∈ VALID_TARGET
                    ∧ dict_at s' d
                      = if decide (pred_cls_of pred = AllDead)
                        then delete "target" k1
                        else <["target" :=
                                 VIds (get_target_agent teams team_id sym)]> k1
             else r = inl (AssertionError "Invalid target")
                  ∧ dict_at s' d = delete "target" k1
         end
    else r = inl (AssertionError "Wrong reward target") ∧ s' = s.
Proof.
  intros Hrun k k1. unfold assign_entry in Hrun.
  destruct (value_in reward_to REWARD_TO) eqn:Hrt; cbn [assert_] in Hrun.
  2: { injection Hrun as <- <-. done. }
  rewrite bind_run in Hrun. cbn [mret M_ret] in Hrun.
  destruct (take_task_cls_run d s) as (s1 & H1 & (_ & Hk1 & Hf1)).
  rewrite bind_run, H1, bind_run in Hrun. fold k k1 in Hk1.
  pose proof (take_target_run get_target_agent teams team_id d s1) as H2.
  rewrite Hk1 in H2.
  assert (k1 !! "target" = k !! "target") as Hkt
    by (unfold k1; by rewrite lookup_delete_ne).
  rewrite Hkt in H2.
  assert (∀ p tc s0, create_tasks teams team_id reward_to (pred_cls_of pred)
                       p tc d tasks s0 = (r, s') → dicts s' = dicts s0) as Hct.
  { intros p tc s0 Heq.
    pose proof (keeps_dicts_create_tasks teams team_id reward_to
                  (pred_cls_of pred) p tc d tasks s0) as Hkeep.
    by rewrite Heq in Hkeep. }
  destruct (k !! "target") as [v|] eqn:Hv.
  - destruct (value_in v VALID_TARGET) eqn:Hvalid.
    + destruct H2 as (sym & s2 & -> & Hsym & H2 & (_ & Hk2 & Hf2)).
      rewrite H2, bind_run in Hrun.
      pose proof (special_predicate_run (pred_cls_of pred)
                    (Some (get_target_agent teams team_id sym)) d s2) as H3.
      rewrite Hk2, lookup_insert_eq in H3.
      destruct (decide (pred_cls_of pred = AllDead)) as [Hall|Hall].
      * destruct H3 as (s3 & (_ & Hk3 & Hf3) & H3). rewrite H3 in Hrun.
        rewrite delete_insert_eq in Hk3.
        assert (dicts s' = dicts s3) as Hs'.
        { destruct (Group_init _) as [err|g].
          - by injection Hrun as _ <-.
          - by apply Hct in Hrun. }
        split.
        -- intros d' Hd'.
           rewrite (dict_at_same_dicts _ _ _ Hs'), Hf3, Hf2, Hf1; done.
        -- exists sym. split; [done|]. split; [done|].
           by rewrite (dict_at_same_dicts _ _ _ Hs').
      * rewrite H3 in Hrun. apply Hct in Hrun. split.
        -- intros d' Hd'.
           rewrite (dict_at_same_dicts _ _ _ Hrun), Hf2, Hf1; done.
        -- exists sym. split; [done|]. split; [done|].
           by rewrite (dict_at_same_dicts _ _ _ Hrun).
    + destruct H2 as (s2 & H2 & (_ & Hk2 & Hf2)).
      rewrite H2 in Hrun. injection Hrun as <- <-. split.
      * intros d' Hd'. rewrite Hf2, Hf1; done.
      * done.
  - rewrite H2, bind_run in Hrun.
    pose proof (special_predicate_run (pred_cls_of pred) None d s1) as H3.
    rewrite Hk1, Hkt in H3.
    destruct (decide (pred_cls_of pred = AllDead)) as [Hall|Hall].
    + rewrite H3 in Hrun. injection Hrun as <- <-. split; [|done].
      intros d' Hd'. by rewrite Hf1.
    + rewrite H3 in Hrun. apply Hct in Hrun. split.
      * intros d' Hd'. rewrite (dict_at_same_dicts _ _ _ Hrun), Hf1; done.
      * by rewrite (dict_at_same_dicts _ _ _ Hrun).
Qed.

Lemma team_tasks_step_run (teams : teams_layout) (task_spec : list spec_entry)
    (tasks : list nat) (idx : nat) (s : state) :
  team_tasks_step get_target_agent teams task_spec tasks idx s
  = match bound_entry teams task_spec idx with
    | inr (team_id, entry) =>
        assign_entry get_target_agent teams team_id entry tasks s
    | inl e => (inl e, s)
    end.
Proof.
  unfold team_tasks_step. rewrite bind_run. unfold lift.
  by destruct (bound_entry teams task_spec idx) as [e|[team_id entry]].
Qed.

(** A position whose iteration raises in every store that satisfies
    an invariant of the successful iterations makes the loop raise. *)
Lemma team_tasks_loop_raises (teams : teams_layout)
    (task_spec : list spec_entry) (Inv : state → Prop) (idx : nat)
    (idxs : list nat) :
  idx ∈ idxs →
  (∀ tasks i s tasks' s', Inv s →
     team_tasks_step get_target_agent teams task_spec tasks i s
     = (inr tasks', s') → Inv s') →
  (∀ tasks s, Inv s →
     ∃ e s', team_tasks_step get_target_agent teams task_spec tasks idx s
             = (inl e, s')) →
  ∀ tasks s, Inv s →
    ∃ e s', team_tasks_loop get_target_agent teams task_spec tasks idxs s
            = (inl e, s').
Proof.
  intros Hin Hpres Hfail.
  induction idxs as [|i idxs IH]; intros tasks s Hinv.
  - by apply elem_of_nil in Hin.
  - cbn [team_tasks_loop]. rewrite bind_run.
    destruct (team_tasks_step get_target_agent teams task_spec tasks i s)
      as [[e|tasks'] s1] eqn:Hstep.
    + by exists e, s1.
    + apply elem_of_cons in Hin as [->|Hin].
      * destruct (Hfail tasks s Hinv) as (e & s2 & Hf). congruence.
      * apply IH; [done|]. eapply Hpres; eassumption.
Qed.

(** A successful iteration leaves the dict of its entry consumed and
    the other dicts as they were. *)
Lemma assign_entry_consumes (teams : teams_layout) (team_id : team_key)
    (reward_to : value) (pred : predicate_arg) (d : nat)
    (tasks tasks' : list nat) (s s' : state) :
  assign_entry get_target_agent teams team_id (reward_to, pred, d) tasks s
  = (inr tasks', s') →
  consumed_form (dict_at s' d)
  ∧ ∀ d', d' ≠ d → dict_at s' d' = dict_at s d'.
Proof.
  intros Hrun. apply assign_entry_dicts in Hrun as [Hframe Hd].
  split; [|exact Hframe]. unfold consumed_form.
  destruct (value_in reward_to REWARD_TO); [|by destruct Hd].
  destruct (dict_at s d !! "target") as [v|] eqn:Hv.
  - destruct (value_in v VALID_TARGET); [|by destruct Hd].
    destruct Hd as (sym & -> & _ & ->).
    destruct (decide (pred_cls_of pred = AllDead)).
    + rewrite lookup_delete_ne, !lookup_delete_eq by done. done.
    + rewrite lookup_insert_ne, lookup_delete_eq, lookup_insert_eq by done.
      done.
  - destruct Hd as [-> _].
    rewrite lookup_delete_eq, lookup_delete_ne, Hv by done. done.
Qed.

Lemma team_tasks_loop_consumes (teams : teams_layout)
    (task_spec : list spec_entry) (idxs : list nat) :
  ∀ tasks s tasks' s',
    team_tasks_loop get_target_agent teams task_spec tasks idxs s
    = (inr tasks', s') →
    (∀ d, consumed_form (dict_at s d) → consumed_form (dict_at s' d))
    ∧ ∀ idx team_id reward_to pred d,
        idx ∈ idxs →
        bound_entry teams task_spec idx = inr (team_id, (reward_to, pred, d)) →
        consumed_form (dict_at s' d).
Proof.
  induction idxs as [|i idxs IH]; intros tasks s tasks' s' Hrun.
  - injection Hrun as _ <-. split; [done|].
    intros idx ? ? ? ? Hin. by apply elem_of_nil in Hin.
  - cbn [team_tasks_loop] in Hrun. rewrite bind_run in Hrun.
    destruct (team_tasks_step get_target_agent teams task_spec tasks i s)
      as [[e|tasks1] s1] eqn:Hstep; [done|].
    destruct (IH _ _ _ _ Hrun) as [IHpres IHall].
    rewrite team_tasks_step_run in Hstep.
    destruct (bound_entry teams task_spec i)
      as [e|[team_id [[reward_to pred] d]]] eqn:Hb; [done|].
    apply assign_entry_consumes in Hstep as [Hcons Hframe].
    assert (∀ d0, consumed_form (dict_at s d0) → consumed_form (dict_at s1 d0))
      as Hpres1.
    { intros d0 H0. destruct (decide (d0 = d)) as [->|Hne]; [done|].
      by rewrite Hframe. }
    split.
    + intros d0 H0. by apply IHpres, Hpres1.
    + intros idx team_id' reward_to' pred' d' Hin Hb'.
      apply elem_of_cons in Hin as [->|Hin].
      * rewrite Hb in Hb'. injection Hb' as <- <- <- <-. by apply IHpres.
      * by eapply IHall.
Qed.

End TeamTaskLoop.

(** ** The claims on the factories *)

(** C5: the loop visits the first [min(len(teams), len(task_spec))]
    positions of the teams but reads the spec at index [team_id]. With
    teams 5 and 6 and a spec of length 1 the call raises IndexError
    (with string ids, TypeError) where a task for the first team is
    expected; with teams 0 and 1 the only task is the one of team 0. *)
Theorem make_team_tasks_indexes_spec_by_team_id :
  (∀ resolver entry s,
     make_team_tasks resolver [(KInt 5, [1; 2]); (KInt 6, [3; 4])] [entry] s
     = (inl IndexError, s))
  ∧ (∀ resolver entry s,
     make_team_tasks resolver [(KStr "A", [1; 2]); (KStr "B", [3; 4])]
       [entry] s
     = (inl TypeError, s))
  ∧ (∀ resolver,
     let out := make_team_tasks resolver sample_teams
                  [(VStr "team", PType (PredClass "P"), 0%nat)]
                  (mkState ∅ []) in
     out.1 = inr [0%nat]
     ∧ ∃ t, objects out.2 = [t]
            ∧ ∀ i, i ∈ assignee t ↔ i = 1 ∨ i = 2).
Proof.
  split; [|split].
  - intros resolver entry s. reflexivity.
  - intros resolver entry s. reflexivity.
  - intros resolver. cbn zeta. split; [by vm_compute|].
    eexists. split; [by vm_compute|].
    intros i. cbn [assignee]. rewrite !elem_of_cons, elem_of_nil. lia.
Qed.

(** With one task per agent the positions bind the same way. *)
Example make_team_tasks_aligned_agents :
  let out := make_team_tasks sample_resolver sample_teams
               [(VStr "agent", PFunction "pred", 0%nat)] (mkState ∅ []) in
  out.1 = inr [0; 1]%nat
  ∧ assignee <$> objects out.2 = [[1]; [2]].
Proof. by vm_compute. Qed.

(** C6: an empty assignee sequence makes the constructor raise; a
    bound spec whose [reward_to] is neither 'agent' nor 'team', or
    whose kwargs hold a [target] that is not one of the four relative
    targets, makes [make_team_tasks] raise: no task list is returned. *)
Theorem malformed_input_is_fatal :
  (∀ (E : Type) (c : task_cls) (ev : E) (m : num),
     Task_init c ev (AIter []) m
     = inl (AssertionError "Assignee cannot be empty"))
  ∧ (∀ resolver teams task_spec s idx team_id reward_to pred d,
       (idx < Nat.min (length teams.*1) (length task_spec))%nat →
       bound_entry teams task_spec idx = inr (team_id, (reward_to, pred, d)) →
       value_in reward_to REWARD_TO = false →
       ∃ e s', make_team_tasks resolver teams task_spec s = (inl e, s'))
  ∧ (∀ resolver teams task_spec s idx team_id reward_to pred d target,
       (idx < Nat.min (length teams.*1) (length task_spec))%nat →
       bound_entry teams task_spec idx = inr (team_id, (reward_to, pred, d)) →
       dict_at s d !! "target" = Some target →
       value_in target VALID_TARGET = false →
       ∃ e s', make_team_tasks resolver teams task_spec s = (inl e, s')).
Proof.
  split; [done|]. split.
  - intros resolver teams task_spec s idx team_id reward_to pred d
      Hidx Hb Hrt.
    unfold make_team_tasks.
    apply (team_tasks_loop_raises resolver teams task_spec (λ _, True) idx);
      try done.
    + apply elem_of_seq. lia.
    + intros tasks s0 _. rewrite team_tasks_step_run, Hb.
      destruct (assign_entry resolver teams team_id (reward_to, pred, d)
                  tasks s0) as [r s1] eqn:Hrun.
      apply assign_entry_dicts in Hrun as [_ Hd]. rewrite Hrt in Hd.
      destruct Hd as [-> _]. by eexists _, _.
  - intros resolver teams task_spec s idx team_id reward_to pred d target
      Hidx Hb Ht Hinvalid.
    unfold make_team_tasks.
    apply (team_tasks_loop_raises resolver teams task_spec
             (λ s0, dict_at s0 d !! "target" = Some target) idx);
      try done.
    + apply elem_of_seq. lia.
    + intros tasks i s0 tasks' s1 Hinv Hstep.
      rewrite team_tasks_step_run in Hstep.
      destruct (bound_entry teams task_spec i)
        as [e|[team_id' [[reward_to' pred'] d']]]; [done|].
      apply assign_entry_dicts in Hstep as [Hframe Hd].
      destruct (decide (d = d')) as [<-|Hne]; [|by rewrite Hframe].
      rewrite Hinv, Hinvalid in Hd.
      destruct (value_in reward_to' REWARD_TO); by destruct Hd.
    + intros tasks s0 Hinv. rewrite team_tasks_step_run, Hb.
      destruct (assign_entry resolver teams team_id (reward_to, pred, d)
                  tasks s0) as [r s1] eqn:Hrun.
      apply assign_entry_dicts in Hrun as [_ Hd].
      rewrite Hinv, Hinvalid in Hd.
      destruct (value_in reward_to REWARD_TO); destruct Hd as [-> _];
        by eexists _, _.
Qed.

Lemma malformed_input_is_fatal_witness :
  let task_spec := [(VStr "everyone", PType (PredClass "P"), 0%nat)] in
  (0 < Nat.min (length sample_teams.*1) (length task_spec))%nat
  ∧ bound_entry sample_teams task_spec 0
    = inr (KInt 0, (VStr "everyone", PType (PredClass "P"), 0%nat))
  ∧ value_in (VStr "everyone") REWARD_TO = false
  ∧ ∃ e s', make_team_tasks sample_resolver sample_teams task_spec
              sample_store = (inl e, s').
Proof.
  intros task_spec.
  assert (0 < Nat.min (length sample_teams.*1) (length task_spec))%nat
    as Hidx by (vm_compute; lia).
  split; [exact Hidx|]. split; [reflexivity|]. split; [reflexivity|].
  apply (proj1 (proj2 malformed_input_is_fatal) sample_resolver sample_teams
           task_spec sample_store 0%nat (KInt 0) (VStr "everyone")
           (PType (PredClass "P")) 0%nat Hidx eq_refl eq_refl).
Defined.

(** The errors that the first bound spec raises. *)
Example make_team_tasks_errors :
  (make_team_tasks sample_resolver sample_teams
     [(VStr "everyone", PType (PredClass "P"), 0%nat)] sample_store).1
  = inl (AssertionError "Wrong reward target")
  ∧ (make_team_tasks sample_resolver sample_teams
       [(VStr "team", PType (PredClass "P"), 0%nat)]
       (mkState {[ 0%nat := {[ "target" := VStr "my_team" ]} ]} [])).1
    = inl (AssertionError "Invalid target").
Proof. by vm_compute. Qed.

(** C10: the body of the loop mutates the kwargs dict of the entry it
    consumes: [task_cls] is removed, a [target] is replaced by the
    resolved agent ids, or removed when the predicate is AllDead; the
    other keys and the other dicts stay. Hence after a call that
    returns, the dict of every bound entry has no [task_cls] and no
    symbolic [target] left for a second call to see. *)
Theorem make_team_tasks_mutates_kwargs :
  (∀ resolver teams team_id reward_to pred d tasks s tasks' s',
     assign_entry resolver teams team_id (reward_to, pred, d) tasks s
     = (inr tasks', s') →
     let k := dict_at s d in
     let k' := dict_at s' d in
     k' !! "task_cls" = None
     ∧ match k !! "target" with
       | None => k' !! "target" = None
       | Some v =>
           ∃ sym, v = VStr sym ∧ sym ∈ VALID_TARGET
             ∧ k' !! "target"
               = if decide (pred_cls_of pred = AllDead) then None
                 else Some (VIds (resolver teams team_id sym))
       end
     ∧ (∀ key, key ≠ "task_cls" → key ≠ "target" → k' !! key = k !! key)
     ∧ ∀ d', d' ≠ d → dict_at s' d' = dict_at s d')
  ∧ (∀ resolver teams task_spec s tasks s',
     make_team_tasks resolver teams task_spec s = (inr tasks, s') →
     ∀ idx team_id reward_to pred d,
       (idx < Nat.min (length teams.*1) (length task_spec))%nat →
       bound_entry teams task_spec idx = inr (team_id, (reward_to, pred, d)) →
       dict_at s' d !! "task_cls" = None
       ∧ ∀ sym, dict_at s' d !! "target" ≠ Some (VStr sym)).
Proof.
  split.
  - intros resolver teams team_id reward_to pred d tasks s tasks' s' Hrun k k'.
    apply assign_entry_dicts in Hrun as [Hframe Hd]. fold k in Hd.
    destruct (value_in reward_to REWARD_TO); [|by destruct Hd].
    destruct (k !! "target") as [v|] eqn:Hv.
    + destruct (value_in v VALID_TARGET); [|by destruct Hd].
      destruct Hd as (sym & -> & Hsym & Hk'). fold k' in Hk'.
      rewrite Hk'. clear Hk'.
      destruct (decide (pred_cls_of pred = AllDead)).
      * split; [by rewrite lookup_delete_ne, lookup_delete_eq|].
        split; [exists sym; by rewrite lookup_delete_eq|].
        split; [|done]. intros key H1 H2. by rewrite !lookup_delete_ne.
      * split; [by rewrite lookup_insert_ne, lookup_delete_eq|].
        split; [exists sym; by rewrite lookup_insert_eq|].
        split; [|done]. intros key H1 H2.
        by rewrite lookup_insert_ne, lookup_delete_ne.
    + destruct Hd as [Hk' _]. fold k' in Hk'. rewrite Hk'.
      split; [by rewrite lookup_delete_eq|].
      split; [by rewrite lookup_delete_ne|].
      split; [|done]. intros key H1 H2. by rewrite lookup_delete_ne.
  - intros resolver teams task_spec s tasks s' Hrun idx team_id reward_to
      pred d Hidx Hb.
    unfold make_team_tasks in Hrun.
    apply team_tasks_loop_consumes in Hrun as [_ Hall].
    apply (Hall idx team_id reward_to pred d); [|done].
    apply elem_of_seq. lia.
Qed.

Lemma make_team_tasks_mutates_kwargs_witness :
  let task_spec := [(VStr "agent", PFunction "pred", 0%nat)] in
  let out := make_team_tasks sample_resolver sample_teams task_spec
               sample_store in
  out.1 = inr [0; 1]%nat
  ∧ (0 < Nat.min (length sample_teams.*1) (length task_spec))%nat
  ∧ bound_entry sample_teams task_spec 0
    = inr (KInt 0, (VStr "agent", PFunction "pred", 0%nat))
  ∧ dict_at out.2 0 !! "task_cls" = None
  ∧ ∀ sym, dict_at out.2 0 !! "target" ≠ Some (VStr sym).
Proof.
  intros task_spec out.
  assert (out = (inr [0; 1]%nat, out.2)) as Hrun by (vm_compute; reflexivity).
  assert (0 < Nat.min (length sample_teams.*1) (length task_spec))%nat
    as Hidx by (vm_compute; lia).
  split; [by rewrite Hrun|]. split; [exact Hidx|]. split; [reflexivity|].
  apply (proj2 make_team_tasks_mutates_kwargs sample_resolver sample_teams
           task_spec sample_store [0; 1]%nat out.2 Hrun 0%nat (KInt 0)
           (VStr "agent") (PFunction "pred") 0%nat Hidx eq_refl).
Defined.

(** A second call on the same task_spec finds the resolved target in
    place of the symbolic one, and raises. *)
Example make_team_tasks_second_call :
  let task_spec := [(VStr "agent", PFunction "pred", 0%nat)] in
  let first := make_team_tasks sample_resolver sample_teams task_spec
                 sample_store in
  let second := make_team_tasks sample_resolver sample_teams task_spec
                  first.2 in
  first.1 = inr [0; 1]%nat
  ∧ dict_at first.2 0 = {[ "target" := VIds [3; 4] ]}
  ∧ second.1 = inl (AssertionError "Invalid target").
Proof. by vm_compute. Qed.

(** * Further properties *)

(** ** The state machine over sequences of calls *)

Section TaskRuns.

Context {GS E : Type}.
Variable call : E → GS → num.

Lemma run_cons (t : Task E) (gs : GS) (gss : list GS) :
  run call t (gs :: gss) = run call (compute_rewards call t gs).2 gss.
Proof. reflexivity. Qed.

Lemma reachable_identity (t0 t : Task E) :
  reachable call t0 t → same_identity t0 t.
Proof.
  induction 1 as [|t gs _ (Hc & He & Ha & Hm)|t _ IH].
  - by repeat split.
  - pose proof (compute_rewards_identity call t gs) as (Hc' & He' & Ha' & Hm').
    repeat split; congruence.
  - exact IH.
Qed.

(** The rewards dict of a call pays the shaped reward times the
    multiplier to the assignee. *)
Lemma compute_rewards_pay_all (t : Task E) (gs : GS) :
  (compute_rewards call t gs).1.1
  = pay_all ((_map_progress_to_reward call t gs).1 * reward_multiplier t)%Qc
      (assignee t).
Proof.
  pose proof (map_progress_identity call t gs) as (_ & _ & Ha & Hm).
  unfold compute_rewards, pay_all.
  destruct (_map_progress_to_reward call t gs) as [r t'].
  cbn [fst snd] in *. by rewrite Ha, Hm.
Qed.

Lemma pay_all_lookup (r : num) (ids : list Z) (i : Z) :
  i ∈ ids → pay_all r ids !! i = Some r.
Proof.
  intros Hi. unfold pay_all. by rewrite dict_comp_lookup, decide_True.
Qed.

Lemma completed_step (t : Task E) (gs : GS) :
  completed t = true → completed (compute_rewards call t gs).2 = true.
Proof.
  intros Hd. rewrite compute_rewards_task. destruct (cls t) eqn:Hc.
  - by rewrite Task_map_completed.
  - destruct (OngoingTask_map call t gs Hc) as (_ & _ & ->).
    rewrite Hd. apply orb_true_r.
Qed.

Lemma completed_run (t : Task E) (gss : list GS) :
  completed t = true → completed (run call t gss) = true.
Proof.
  revert t. induction gss as [|gs gss IH]; intros t Hd; [done|].
  rewrite run_cons. apply IH. by apply completed_step.
Qed.


End TaskRuns.

(** X1: [reset] brings a task back to the state in which its
    constructor left it, whatever calls were made in between. *)
Theorem reset_restores_constructed {GS E : Type} (call : E → GS → num)
    (c : task_cls) (ev : E) (a : assignee_arg) (m : num) (t0 t : Task E) :
  Task_init c ev a m = inr t0 →
  reachable call t0 t →
  reset t = t0.
Proof.
  intros Hinit Hreach.
  destruct (task_inv_init _ _ _ _ _ Hinit) as (_ & _ & _ & _ & Hp & Hd).
  destruct (reachable_identity call t0 t Hreach) as (Hc & He & Ha & Hm).
  destruct t0, t. unfold reset. cbn in *. congruence.
Qed.

Lemma reset_restores_constructed_witness :
  let t := run call_fn scenario_task [0; 1; 2]%nat in
  Task_init cls_Task scenario_eval (AInt 7) (dec 2 1) = inr scenario_task
  ∧ reachable call_fn scenario_task t
  ∧ reset t = scenario_task.
Proof.
  intros t.
  assert (Task_init cls_Task scenario_eval (AInt 7) (dec 2 1)
          = inr scenario_task) as Hinit by reflexivity.
  assert (reachable call_fn scenario_task t) as Hreach
    by (do 3 apply reach_compute; apply reach_init).
  split; [exact Hinit|]. split; [exact Hreach|].
  exact (reset_restores_constructed call_fn _ _ _ _ _ _ Hinit Hreach).
Defined.

(** X2: [compute_rewards] never clears [completed], for either class:
    a completed task stays completed over any sequence of calls. *)
Theorem completed_latches {GS E : Type} (call : E → GS → num)
    (t : Task E) (gss : list GS) :
  completed t = true → completed (run call t gss) = true.
Proof. apply completed_run. Qed.

Lemma completed_latches_witness :
  let t := run call_fn ongoing_sample [()] in
  completed t = true ∧ completed (run call_fn t [(); ()]) = true.
Proof.
  intros t.
  assert (completed t = true) as Hd by (vm_compute; reflexivity).
  split; [exact Hd|]. exact (completed_latches call_fn t [(); ()] Hd).
Defined.

(** X3: the rewards and the infos of a call have exactly the ids of
    the assignee as keys, in every state of either class: no other id
    is paid, and no assignee is left out. *)
Theorem rewards_keys_are_assignee {GS E : Type} (call : E → GS → num)
    (t : Task E) (gs : GS) :
  dom (compute_rewards call t gs).1.1 = list_to_set (assignee t)
  ∧ dom (compute_rewards call t gs).1.2 = list_to_set (assignee t).
Proof.
  pose proof (map_progress_identity call t gs) as (_ & _ & Ha & _).
  unfold compute_rewards.
  destruct (_map_progress_to_reward call t gs) as [r t'].
  cbn [fst snd] in *. by rewrite !dict_comp_dom, Ha.
Qed.





(** The stream of an OngoingTask in closed form. *)
Lemma ongoing_stream_closed {GS E : Type} (call : E → GS → num)
    (t : Task E) (gss : list GS) :
  cls t = cls_OngoingTask →
  reward_stream call t gss
  = (λ gs, pay_all (clamp (call (eval_fn t) gs) 0%Qc 1%Qc
                    * reward_multiplier t)%Qc (assignee t)) <$> gss.
Proof.
  revert t. induction gss as [|gs gss IH]; intros t Hc; [done|].
  cbn [reward_stream]. rewrite fmap_cons.
  pose proof (compute_rewards_pay_all call t gs) as Hpay.
  pose proof (compute_rewards_identity call t gs) as (Hc' & He' & Ha' & Hm').
  destruct (OngoingTask_map call t gs Hc) as (Hr & _ & _).
  rewrite clamped_eval_clamp in Hr.
  destruct (compute_rewards call t gs) as [[rewards infos] t'].
  cbn [fst snd] in *. rewrite IH by congruence.
  by rewrite Hpay, Hr, He', Ha', Hm'.
Qed.

(** X6: what an OngoingTask pays on a tick depends on the game state
    of that tick only, not on the calls before it: each tick pays the
    clamped evaluation times the multiplier to the assignee. *)
Theorem ongoing_rewards_follow_state {GS E : Type} (call : E → GS → num)
    (t : Task E) (gss : list GS) :
  cls t = cls_OngoingTask →
  reward_stream call t gss
  = (λ gs, pay_all (clamp (call (eval_fn t) gs) 0%Qc 1%Qc
                    * reward_multiplier t)%Qc (assignee t)) <$> gss.
Proof. apply ongoing_stream_closed. Qed.

Lemma ongoing_rewards_follow_state_witness :
  cls ongoing_sample = cls_OngoingTask
  ∧ reward_stream call_fn ongoing_sample [(); ()]
    = (λ gs, pay_all (clamp (call_fn (eval_fn ongoing_sample) gs) 0%Qc 1%Qc
                      * reward_multiplier ongoing_sample)%Qc
               (assignee ongoing_sample)) <$> [(); ()].
Proof.
  split; [reflexivity|].
  exact (ongoing_rewards_follow_state call_fn ongoing_sample [(); ()] eq_refl).
Defined.

(** X7: with a multiplier [m >= 0] every call of an OngoingTask pays
    each assignee a reward between 0 and [m], and leaves a progress
    between 0 and 1. *)
Theorem ongoing_reward_bounded {GS E : Type} (call : E → GS → num)
    (t : Task E) (gs : GS) (i : Z) :
  cls t = cls_OngoingTask → i ∈ assignee t → (0 <= reward_multiplier t)%Qc →
  (0 <= progress (compute_rewards call t gs).2)%Qc
  ∧ (progress (compute_rewards call t gs).2 <= 1)%Qc
  ∧ ∃ r, (compute_rewards call t gs).1.1 !! i = Some r
         ∧ (0 <= r)%Qc ∧ (r <= reward_multiplier t)%Qc.
Proof.
  intros Hc Hi Hm.
  destruct (OngoingTask_map call t gs Hc) as (Hr & Hp & _).
  destruct (clamped_eval_range call t gs) as [H0 H1].
  rewrite compute_rewards_task, Hp.
  split; [exact H0|]. split; [exact H1|].
  rewrite compute_rewards_pay_all, pay_all_lookup, Hr by done.
  eexists. split; [reflexivity|]. split.
  - replace 0%Qc with (0 * reward_multiplier t)%Qc by ring.
    by apply Qcmult_le_compat_r.
  - replace (reward_multiplier t) with (1 * reward_multiplier t)%Qc at 2
      by ring.
    by apply Qcmult_le_compat_r.
Qed.

Lemma ongoing_reward_bounded_witness :
  cls ongoing_sample = cls_OngoingTask ∧ 5 ∈ assignee ongoing_sample
  ∧ (0 <= reward_multiplier ongoing_sample)%Qc
  ∧ ∃ r, (compute_rewards call_fn ongoing_sample ()).1.1 !! 5 = Some r
         ∧ (0 <= r)%Qc ∧ (r <= reward_multiplier ongoing_sample)%Qc.
Proof.
  assert (5 ∈ assignee ongoing_sample) as Hi by apply list_elem_of_here.
  assert (0 <= reward_multiplier ongoing_sample)%Qc as Hm by (by vm_compute).
  split; [reflexivity|]. split; [exact Hi|]. split; [exact Hm|].
  exact (proj2 (proj2 (ongoing_reward_bounded call_fn ongoing_sample () 5
           eq_refl Hi Hm))).
Defined.

(** X8: a completed OngoingTask whose evaluation falls below 1 stays
    completed while its progress is below 1: the equivalence between
    [completed] and [progress >= 1] of the default Task does not hold
    for OngoingTask. *)
Theorem ongoing_completed_outlives_progress {GS E : Type}
    (call : E → GS → num) (t : Task E) (gs : GS) :
  cls t = cls_OngoingTask → completed t = true →
  (call (eval_fn t) gs < 1)%Qc →
  completed (compute_rewards call t gs).2 = true
  ∧ (progress (compute_rewards call t gs).2 < 1)%Qc.
Proof.
  intros Hc Hd Hlt. split; [by apply completed_step|].
  destruct (OngoingTask_map call t gs Hc) as (_ & Hp & _).
  rewrite compute_rewards_task, Hp, clamped_eval_clamp. unfold clamp.
  destruct (ltb (call (eval_fn t) gs) 0%Qc); [by vm_compute|].
  destruct (ltb 1%Qc (call (eval_fn t) gs)) eqn:H1; [|exact Hlt].
  apply ltb_true in H1. exfalso.
  apply (Qclt_not_le _ _ (Qclt_trans _ _ _ H1 Hlt)), Qcle_refl.
Qed.

Lemma ongoing_completed_outlives_progress_witness :
  let t := mkTask cls_OngoingTask (tick_eval [dec 1 1; dec 1 2]) [5]
             1%Qc true 1%Qc in
  cls t = cls_OngoingTask ∧ completed t = true
  ∧ (call_fn (eval_fn t) 1%nat < 1)%Qc
  ∧ completed (compute_rewards call_fn t 1%nat).2 = true
  ∧ (progress (compute_rewards call_fn t 1%nat).2 < 1)%Qc.
Proof.
  intros t.
  assert (call_fn (eval_fn t) 1%nat < 1)%Qc as Hlt by (by vm_compute).
  split; [reflexivity|]. split; [reflexivity|]. split; [exact Hlt|].
  exact (ongoing_completed_outlives_progress call_fn t 1%nat
           eq_refl eq_refl Hlt).
Defined.

(** X9: the assignee that the constructor stores for a sequence of ids
    holds every id of the sequence, no other id, and none twice; it is
    never longer than the sequence. *)
Theorem constructor_dedups_assignee {E : Type} (c : task_cls) (ev : E)
    (l : list Z) (m : num) (t : Task E) :
  Task_init c ev (AIter l) m = inr t →
  NoDup (assignee t)
  ∧ (∀ i, i ∈ assignee t ↔ i ∈ l)
  ∧ (length (assignee t) <= length l)%nat.
Proof.
  intros Hinit.
  destruct (Task_init_assignee c ev (AIter l) m t Hinit) as [Hnd Hmem].
  split; [exact Hnd|]. split; [exact Hmem|].
  apply submseteq_length, NoDup_submseteq; [exact Hnd|].
  intros i Hi. by apply Hmem.
Qed.

Lemma constructor_dedups_assignee_witness :
  let t := mkTask cls_Task scenario_eval
             (elements (list_to_set [1; 1; 2] : gset Z)) 0%Qc false 1%Qc in
  Task_init cls_Task scenario_eval (AIter [1; 1; 2]) 1%Qc = inr t
  ∧ NoDup (assignee t)
  ∧ (length (assignee t) <= 3)%nat.
Proof.
  intros t.
  assert (Task_init cls_Task scenario_eval (AIter [1; 1; 2]) 1%Qc = inr t)
    as Hinit by reflexivity.
  destruct (constructor_dedups_assignee cls_Task scenario_eval [1; 1; 2]
              1%Qc t Hinit) as (Hnd & _ & Hlen).
  split; [exact Hinit|]. split; [exact Hnd|exact Hlen].
Defined.

(** X10: an int assignee and a sequence that repeats this int any
    number of times build the same task. *)
Theorem int_assignee_is_repeated_id {E : Type} (c : task_cls) (ev : E)
    (i : Z) (n : nat) (m : num) :
  Task_init c ev (AIter (replicate (S n) i)) m = Task_init c ev (AInt i) m.
Proof.
  assert (list_to_set (replicate (S n) i) = ({[ i ]} : gset Z)) as Hset.
  { induction n as [|n IH].
    - cbn. apply (right_id_L ∅ (∪)).
    - change (replicate (S (S n)) i) with (i :: replicate (S n) i).
      rewrite list_to_set_cons, IH. apply (idemp_L (∪)). }
  unfold Task_init. rewrite decide_True by (cbn; lia).
  by rewrite Hset, elements_singleton.
Qed.

(** ** nmmo_default_task *)

(** [nmmo_default_task] in closed form. *)
Lemma nmmo_default_task_run (agent_list : list Z) (test_mode : option string)
    (s : state) :
  nmmo_default_task agent_list test_mode s
  = if decide (test_mode = Some "no_task") then (inr [], s)
    else
      let pc := match test_mode with
                | None => StayAlive
                | Some mode =>
                    if decide (mode = "dummy_eval_fn")
                    then define_predicate "<lambda>"
                    else define_predicate "stay_alive_eval"
                end in
      (inr (seq (length (objects s)) (length agent_list)),
       mkState (dicts s)
         (objects s ++ (same_task_for pc cls_OngoingTask ∅ <$> agent_list))).
Proof.
  unfold nmmo_default_task. destruct test_mode as [mode|].
  - destruct (decide (mode = "no_task")) as [->|Hn].
    + by rewrite decide_True.
    + destruct (decide (Some mode = Some "no_task")) as [[= ->]|_]; [done|].
      destruct (decide (mode = "dummy_eval_fn")); by rewrite make_same_task_run.
  - rewrite decide_False by done. by rewrite make_same_task_run.
Qed.

(** X11: [nmmo_default_task] cannot fail. With [test_mode] 'no_task'
    it returns no task and leaves the store alone; with any other
    [test_mode] it returns one new OngoingTask per agent, in the order
    of the list, each assigned to its agent alone, on [bp.StayAlive]
    for None, on the constant lambda for 'dummy_eval_fn' and on
    [stay_alive_eval] for every other string. *)
Theorem nmmo_default_task_modes (agent_list : list Z)
    (test_mode : option string) (s : state) :
  (test_mode = Some "no_task" →
     nmmo_default_task agent_list test_mode s = (inr [], s))
  ∧ (test_mode ≠ Some "no_task" →
     ∃ pc,
       nmmo_default_task agent_list test_mode s
       = (inr (seq (length (objects s)) (length agent_list)),
          mkState (dicts s)
            (objects s
             ++ (same_task_for pc cls_OngoingTask ∅ <$> agent_list)))
       ∧ (test_mode = None → pc = StayAlive)
       ∧ (test_mode = Some "dummy_eval_fn"
          → pc = define_predicate "<lambda>")
       ∧ (∀ mode, test_mode = Some mode → mode ≠ "dummy_eval_fn"
          → pc = define_predicate "stay_alive_eval")).
Proof.
  rewrite nmmo_default_task_run. split.
  - intros ->. by rewrite decide_True.
  - intros Hn. rewrite decide_False by done. cbn zeta.
    eexists. split; [reflexivity|]. split; [|split].
    + by intros ->.
    + intros ->. by rewrite decide_True.
    + intros mode -> Hd. by rewrite decide_False.
Qed.

Lemma nmmo_default_task_modes_witness :
  nmmo_default_task [5; 6] (Some "no_task") (mkState ∅ [])
  = (inr [], mkState ∅ [])
  ∧ ∃ pc, nmmo_default_task [5; 6] (Some "anything") (mkState ∅ [])
          = (inr [0; 1]%nat,
             mkState ∅ (same_task_for pc cls_OngoingTask ∅ <$> [5; 6]))
          ∧ pc = define_predicate "stay_alive_eval".
Proof.
  split.
  - exact (proj1 (nmmo_default_task_modes [5; 6] (Some "no_task")
             (mkState ∅ [])) eq_refl).
  - assert (Some "anything" ≠ Some "no_task") as Hn by discriminate.
    destruct (proj2 (nmmo_default_task_modes [5; 6] (Some "anything")
                (mkState ∅ [])) Hn) as (pc & Hrun & _ & _ & Hpc).
    exists pc. split; [exact Hrun|]. apply (Hpc "anything" eq_refl).
    discriminate.
Defined.

Lemma pay_all_singleton (r : num) (i : Z) : pay_all r [i] = {[ i := r ]}.
Proof. reflexivity. Qed.

(** X12: every task that [nmmo_default_task] builds in mode
    'dummy_eval_fn' pays 1.0 to its agent on every call, whatever the
    game state, and is completed from the first call on. *)
Theorem dummy_eval_fn_pays_every_tick (agent_list : list Z) (s : state)
    (k : nat) (agent_id : Z) (other : Predicate → game_state → num)
    (gss : list game_state) :
  agent_list !! k = Some agent_id →
  ∃ tasks s' l t,
    nmmo_default_task agent_list (Some "dummy_eval_fn") s = (inr tasks, s')
    ∧ tasks !! k = Some l ∧ objects s' !! l = Some t
    ∧ assignee t = [agent_id]
    ∧ reward_stream (call_predicate other) t gss
      = replicate (length gss) {[ agent_id := 1%Qc ]}
    ∧ (gss ≠ [] → completed (run (call_predicate other) t gss) = true).
Proof.
  intros Hk. rewrite nmmo_default_task_run.
  rewrite decide_False by discriminate. cbn zeta.
  rewrite decide_True by done.
  set (t := same_task_for (define_predicate "<lambda>") cls_OngoingTask ∅
              agent_id).
  eexists _, _, (length (objects s) + k)%nat, t.
  split; [reflexivity|]. cbn [objects].
  split; [apply lookup_seq; split; [done|by apply lookup_lt_Some in Hk]|].
  split.
  { rewrite lookup_app_r by lia.
    replace (length (objects s) + k - length (objects s))%nat with k by lia.
    by rewrite list_lookup_fmap, Hk. }
  split; [done|].
  assert (∀ gs, clamped_eval (call_predicate other) t gs = 1%Qc) as Hone.
  { intros gs. by apply clamped_eval_one. }
  split.
  - rewrite ongoing_stream_closed by done. apply const_fmap.
    intros i gs _. rewrite <- clamped_eval_clamp, Hone.
    cbn [t same_task_for reward_multiplier assignee].
    rewrite Qcmult_1_r. apply pay_all_singleton.
  - destruct gss as [|gs gss]; [done|]. intros _.
    rewrite run_cons. apply completed_run.
    rewrite compute_rewards_task.
    destruct (OngoingTask_map (call_predicate other) t gs eq_refl)
      as (_ & _ & ->).
    by rewrite Hone.
Qed.

Lemma dummy_eval_fn_pays_every_tick_witness :
  [5; 6] !! 1%nat = Some 6
  ∧ ∃ tasks s' l t,
      nmmo_default_task [5; 6] (Some "dummy_eval_fn") (mkState ∅ [])
      = (inr tasks, s')
      ∧ tasks !! 1%nat = Some l ∧ objects s' !! l = Some t
      ∧ reward_stream (call_predicate (λ _ _, 0%Qc)) t
          [mkGameState []; mkGameState [6]]
        = replicate 2 {[ 6 := 1%Qc ]}.
Proof.
  split; [reflexivity|].
  destruct (dummy_eval_fn_pays_every_tick [5; 6] (mkState ∅ []) 1 6
              (λ _ _, 0%Qc) [mkGameState []; mkGameState [6]] eq_refl)
    as (tasks & s' & l & t & Hrun & Hl & Ht & _ & Hstream & _).
  exists tasks, s', l, t.
  split; [exact Hrun|]. split; [exact Hl|]. split; [exact Ht|exact Hstream].
Defined.

(** X13: every task that [nmmo_default_task] builds for a
    [test_mode] string other than 'no_task' and 'dummy_eval_fn' pays
    its agent 1.0 on the calls whose game state has the agent among
    the alive agents and 0.0 on the others. *)
Theorem stay_alive_eval_pays_alive_agent (agent_list : list Z) (mode : string)
    (s : state) (k : nat) (agent_id : Z)
    (other : Predicate → game_state → num) (gss : list game_state) :
  mode ≠ "no_task" → mode ≠ "dummy_eval_fn" →
  agent_list !! k = Some agent_id →
  ∃ tasks s' l t,
    nmmo_default_task agent_list (Some mode) s = (inr tasks, s')
    ∧ tasks !! k = Some l ∧ objects s' !! l = Some t
    ∧ assignee t = [agent_id]
    ∧ reward_stream (call_predicate other) t gss
      = (λ gs, {[ agent_id :=
                  if bool_decide (agent_id ∈ alive_agents gs)
                  then 1%Qc else 0%Qc ]}) <$> gss.
Proof.
  intros Hn Hd Hk. rewrite nmmo_default_task_run.
  destruct (decide (Some mode = Some "no_task")) as [[= ->]|_]; [done|].
  cbn zeta. rewrite decide_False by done.
  set (t := same_task_for (define_predicate "stay_alive_eval")
              cls_OngoingTask ∅ agent_id).
  eexists _, _, (length (objects s) + k)%nat, t.
  split; [reflexivity|]. cbn [objects].
  split; [apply lookup_seq; split; [done|by apply lookup_lt_Some in Hk]|].
  split.
  { rewrite lookup_app_r by lia.
    replace (length (objects s) + k - length (objects s))%nat with k by lia.
    by rewrite list_lookup_fmap, Hk. }
  split; [done|].
  rewrite ongoing_stream_closed by done. apply list_fmap_ext.
  intros i gs _. cbn [t same_task_for reward_multiplier assignee eval_fn].
  rewrite pay_all_singleton. f_equal.
  unfold call_predicate, stay_alive_eval.
  cbn [pred_class subject agents forallb]. rewrite andb_true_r.
  rewrite Qcmult_1_r. destruct (bool_decide (agent_id ∈ alive_agents gs));
    by apply clamp_unit_id.
Qed.

Lemma stay_alive_eval_pays_alive_agent_witness :
  "stay" ≠ "no_task" ∧ "stay" ≠ "dummy_eval_fn" ∧ [5; 6] !! 0%nat = Some 5
  ∧ ∃ tasks s' l t,
      nmmo_default_task [5; 6] (Some "stay") (mkState ∅ [])
      = (inr tasks, s')
      ∧ tasks !! 0%nat = Some l ∧ objects s' !! l = Some t
      ∧ reward_stream (call_predicate (λ _ _, 0%Qc)) t
          [mkGameState [5; 6]; mkGameState [6]]
        = (λ gs, {[ 5 := if bool_decide (5 ∈ alive_agents gs)
                         then 1%Qc else 0%Qc ]})
          <$> [mkGameState [5; 6]; mkGameState [6]].
Proof.
  assert ("stay" ≠ "no_task") as Hn by discriminate.
  assert ("stay" ≠ "dummy_eval_fn") as Hd by discriminate.
  split; [exact Hn|]. split; [exact Hd|]. split; [reflexivity|].
  destruct (stay_alive_eval_pays_alive_agent [5; 6] "stay" (mkState ∅ []) 0 5
              (λ _ _, 0%Qc) [mkGameState [5; 6]; mkGameState [6]]
              Hn Hd eq_refl)
    as (tasks & s' & l & t & Hrun & Hl & Ht & _ & Hstream).
  exists tasks, s', l, t.
  split; [exact Hrun|]. split; [exact Hl|]. split; [exact Ht|exact Hstream].
Defined.

(** ** Task names *)

Lemma append_String (c : Ascii.ascii) (a b : string) :
  (String c a ++ b)%string = String c (a ++ b).
Proof. reflexivity. Qed.

Lemma append_empty (b : string) : (EmptyString ++ b)%string = b.
Proof. reflexivity. Qed.

Lemma remove_spaces_app (a b : string) :
  remove_spaces (a ++ b) = (remove_spaces a ++ remove_spaces b)%string.
Proof.
  induction a as [|c a IH]; [done|].
  rewrite append_String. cbn [remove_spaces].
  destruct (Ascii.eqb c space); [exact IH|].
  by rewrite append_String, IH.
Qed.

Lemma remove_spaces_get (s : string) (n : nat) :
  String.get n (remove_spaces s) ≠ Some space.
Proof.
  revert n. induction s as [|c s IH]; intros n; [by destruct n|].
  cbn [remove_spaces]. destruct (Ascii.eqb c space) eqn:Hc; [apply IH|].
  destruct n as [|n]; [|apply IH].
  cbn. intros [= ->]. by rewrite Ascii.eqb_refl in Hc.
Qed.

Lemma get_app_no_space (a b : string) :
  (∀ n, String.get n a ≠ Some space) →
  (∀ n, String.get n b ≠ Some space) →
  ∀ n, String.get n (a ++ b) ≠ Some space.
Proof.
  intros Ha Hb. induction a as [|c a IH]; [exact Hb|].
  rewrite append_String. intros [|n].
  - apply (Ha 0%nat).
  - cbn [String.get]. apply IH. intros n'. apply (Ha (S n')).
Qed.

(** X14: a task name holds no space, whatever the class name and
    whatever [arg_to_string] returns for the arguments. *)
Theorem make_name_has_no_space {A : Type} (arg_to_string : A → string)
    (class_name : string) (kwargs : list (A * A)) (n : nat) :
  String.get n (_make_name arg_to_string class_name kwargs) ≠ Some space.
Proof.
  unfold _make_name. cbn zeta. rewrite append_String, append_empty.
  destruct n as [|n]; [done|]. cbn [String.get].
  apply get_app_no_space.
  - apply remove_spaces_get.
  - intros [|[|n']]; done.
Qed.

(** X15: a task name is the class name and the [key:arg] parts, each
    without its spaces, joined by underscores between brackets; names
    that differ in spaces only are the same name. *)
Theorem make_name_joins_stripped_parts {A : Type} (arg_to_string : A → string)
    (class_name : string) (kwargs : list (A * A)) :
  _make_name arg_to_string class_name kwargs
  = ("(" ++ String.concat "_"
              (remove_spaces
               <$> class_name :: (name_part arg_to_string <$> kwargs))
     ++ ")")%string.
Proof.
  unfold _make_name. cbn zeta. do 2 f_equal.
  generalize (class_name :: (name_part arg_to_string <$> kwargs)).
  intros parts. induction parts as [|p parts IH]; [done|].
  destruct parts as [|q parts]; [done|].
  change (String.concat "_" (p :: q :: parts))
    with (p ++ "_" ++ String.concat "_" (q :: parts))%string.
  rewrite !remove_spaces_app, IH. reflexivity.
Qed.

(** ** Failures and aliasing in make_team_tasks *)

Lemma bound_entry_replicate (teams : teams_layout) (entry : spec_entry)
    (n idx : nat) (team_id : team_key) (entry' : spec_entry) :
  bound_entry teams (replicate n entry) idx = inr (team_id, entry') →
  entry' = entry.
Proof.
  unfold bound_entry, spec_index, list_index.
  destruct (teams.*1 !! idx) as [[i|name]|]; try done.
  destruct (_ && _); [|done].
  destruct (replicate n entry !! _) as [x|] eqn:Hx; [|done].
  intros [= _ <-]. by apply lookup_replicate_1 in Hx as [-> _].
Qed.

(** X16: a spec on [bp.AllDead] whose kwargs hold no [target] makes
    the body of the loop raise KeyError('target'), and with it the
    call of [make_team_tasks] that binds the spec. *)
Theorem all_dead_needs_target
    (resolver : teams_layout → team_key → string → list Z)
    (teams : teams_layout) (task_spec : list spec_entry) (s : state)
    (idx : nat) (team_id : team_key) (reward_to : value)
    (pred : predicate_arg) (d : nat) :
  (idx < Nat.min (length teams.*1) (length task_spec))%nat →
  bound_entry teams task_spec idx = inr (team_id, (reward_to, pred, d)) →
  value_in reward_to REWARD_TO = true →
  pred_cls_of pred = AllDead →
  dict_at s d !! "target" = None →
  (∀ tasks, ∃ s',
     assign_entry resolver teams team_id (reward_to, pred, d) tasks s
     = (inl (KeyError "target"), s'))
  ∧ ∃ e s', make_team_tasks resolver teams task_spec s = (inl e, s').
Proof.
  intros Hidx Hb Hrt Hall Ht.
  assert (∀ tasks s0, dict_at s0 d !! "target" = None →
            ∃ s', assign_entry resolver teams team_id (reward_to, pred, d)
                    tasks s0 = (inl (KeyError "target"), s')) as Hbody.
  { intros tasks s0 Ht0.
    destruct (assign_entry resolver teams team_id (reward_to, pred, d)
                tasks s0) as [r s1] eqn:Hrun.
    apply assign_entry_dicts in Hrun as [_ Hd].
    rewrite Hrt, Ht0 in Hd. destruct Hd as [_ Hr].
    rewrite (Hr Hall). by eexists. }
  split; [intros tasks; by apply Hbody|].
  unfold make_team_tasks.
  apply (team_tasks_loop_raises resolver teams task_spec
           (λ s0, dict_at s0 d !! "target" = None) idx); try done.
  - apply elem_of_seq. lia.
  - intros tasks i s0 tasks' s1 Hinv Hstep.
    rewrite team_tasks_step_run in Hstep.
    destruct (bound_entry teams task_spec i)
      as [e|[team_id' [[reward_to' pred'] d']]]; [done|].
    apply assign_entry_dicts in Hstep as [Hframe Hd].
    destruct (decide (d = d')) as [<-|Hne]; [|by rewrite Hframe].
    rewrite Hinv in Hd.
    destruct (value_in reward_to' REWARD_TO); [|by destruct Hd].
    destruct Hd as [-> _]. by rewrite lookup_delete_ne.
  - intros tasks s0 Hinv. rewrite team_tasks_step_run, Hb.
    destruct (Hbody tasks s0 Hinv) as [s1 ->]. by eexists _, _.
Qed.

Lemma all_dead_needs_target_witness :
  let task_spec := [(VStr "team", PType AllDead, 0%nat)] in
  (0 < Nat.min (length sample_teams.*1) (length task_spec))%nat
  ∧ bound_entry sample_teams task_spec 0
    = inr (KInt 0, (VStr "team", PType AllDead, 0%nat))
  ∧ value_in (VStr "team") REWARD_TO = true
  ∧ pred_cls_of (PType AllDead) = AllDead
  ∧ dict_at (mkState ∅ []) 0 !! "target" = None
  ∧ ∃ e s', make_team_tasks sample_resolver sample_teams task_spec
              (mkState ∅ []) = (inl e, s').
Proof.
  intros task_spec.
  assert (0 < Nat.min (length sample_teams.*1) (length task_spec))%nat
    as Hidx by (vm_compute; lia).
  split; [exact Hidx|]. do 4 (split; [reflexivity|]).
  exact (proj2 (all_dead_needs_target sample_resolver sample_teams task_spec
           (mkState ∅ []) 0 (KInt 0) (VStr "team") (PType AllDead) 0
           Hidx eq_refl eq_refl eq_refl eq_refl)).
Defined.

(** X17: the check of [reward_to] comes before any change: a wrong
    [reward_to] leaves the store as it was. The check of [target]
    comes after its pop: when it fails, [target] and [task_cls] are
    already gone from the kwargs of the caller, and no other dict has
    changed. *)
Theorem failed_entry_leaves_kwargs
    (resolver : teams_layout → team_key → string → list Z)
    (teams : teams_layout) (team_id : team_key) (reward_to : value)
    (pred : predicate_arg) (d : nat) (tasks : list nat) (s : state) :
  (value_in reward_to REWARD_TO = false →
     assign_entry resolver teams team_id (reward_to, pred, d) tasks s
     = (inl (AssertionError "Wrong reward target"), s))
  ∧ (∀ target,
       value_in reward_to REWARD_TO = true →
       dict_at s d !! "target" = Some target →
       value_in target VALID_TARGET = false →
       ∃ s',
         assign_entry resolver teams team_id (reward_to, pred, d) tasks s
         = (inl (AssertionError "Invalid target"), s')
         ∧ dict_at s' d = delete "target" (delete "task_cls" (dict_at s d))
         ∧ ∀ d', d' ≠ d → dict_at s' d' = dict_at s d').
Proof.
  split.
  - intros Hrt.
    destruct (assign_entry resolver teams team_id (reward_to, pred, d)
                tasks s) as [r s1] eqn:Hrun.
    apply assign_entry_dicts in Hrun as [_ Hd]. rewrite Hrt in Hd.
    by destruct Hd as [-> ->].
  - intros target Hrt Ht Hinvalid.
    destruct (assign_entry resolver teams team_id (reward_to, pred, d)
                tasks s) as [r s1] eqn:Hrun.
    apply assign_entry_dicts in Hrun as [Hframe Hd].
    rewrite Hrt, Ht, Hinvalid in Hd. destruct Hd as [-> Hk].
    by exists s1.
Qed.

Lemma failed_entry_leaves_kwargs_witness :
  let s := mkState {[ 0%nat := {[ "target" := VStr "my_team";
                                  "task_cls" := VCls cls_OngoingTask;
                                  "num_tick" := VInt 3 ]} ]} [] in
  value_in (VStr "team") REWARD_TO = true
  ∧ dict_at s 0 !! "target" = Some (VStr "my_team")
  ∧ value_in (VStr "my_team") VALID_TARGET = false
  ∧ ∃ s', assign_entry sample_resolver sample_teams (KInt 0)
            (VStr "team", PType (PredClass "P"), 0%nat) [] s
          = (inl (AssertionError "Invalid target"), s')
          ∧ dict_at s' 0
            = delete "target" (delete "task_cls" (dict_at s 0)).
Proof.
  intros s.
  assert (dict_at s 0 !! "target" = Some (VStr "my_team")) as Ht
    by (vm_compute; reflexivity).
  split; [reflexivity|]. split; [exact Ht|]. split; [reflexivity|].
  destruct (proj2 (failed_entry_leaves_kwargs sample_resolver sample_teams
              (KInt 0) (VStr "team") (PType (PredClass "P")) 0 [] s)
              (VStr "my_team") eq_refl Ht eq_refl) as (s' & Hrun & Hk & _).
  exists s'. split; [exact Hrun|exact Hk].
Defined.

(** X18: a [task_spec] that repeats one entry (the [[spec] * n]
    idiom), so that the teams share one kwargs dict, cannot be built
    for two or more teams when the kwargs hold a [target]: the
    second team finds the dict as the first one left it, and the call
    raises. *)
Theorem repeated_entry_with_target_fails
    (resolver : teams_layout → team_key → string → list Z)
    (teams : teams_layout) (reward_to : value) (pred : predicate_arg)
    (d n : nat) (s : state) (target : value) :
  (2 <= Nat.min (length teams.*1) n)%nat →
  dict_at s d !! "target" = Some target →
  ∃ e s',
    make_team_tasks resolver teams (replicate n (reward_to, pred, d)) s
    = (inl e, s').
Proof.
  intros Hn Ht. unfold make_team_tasks. rewrite length_replicate.
  destruct (Nat.min (length teams.*1) n) as [|[|m]]; [lia|lia|].
  cbn [seq team_tasks_loop]. rewrite bind_run.
  destruct (team_tasks_step resolver teams
              (replicate n (reward_to, pred, d)) [] 0 s)
    as [[e|tasks1] s1] eqn:Hstep0; [by eexists _, _|].
  rewrite team_tasks_step_run in Hstep0.
  destruct (bound_entry teams (replicate n (reward_to, pred, d)) 0)
    as [e|[team_id0 entry0]] eqn:Hb0; [done|].
  apply bound_entry_replicate in Hb0 as ->.
  apply assign_entry_dicts in Hstep0 as [_ Hd0]. rewrite Ht in Hd0.
  destruct (value_in reward_to REWARD_TO) eqn:Hrt; [|by destruct Hd0].
  destruct (value_in target VALID_TARGET); [|by destruct Hd0].
  destruct Hd0 as (sym & -> & _ & Hk1).
  rewrite bind_run, team_tasks_step_run.
  destruct (bound_entry teams (replicate n (reward_to, pred, d)) 1)
    as [e|[team_id1 entry1]] eqn:Hb1; [by eexists _, _|].
  apply bound_entry_replicate in Hb1 as ->.
  destruct (assign_entry resolver teams team_id1 (reward_to, pred, d)
              tasks1 s1) as [r s2] eqn:Hstep1.
  apply assign_entry_dicts in Hstep1 as [_ Hd1].
  rewrite Hrt, Hk1 in Hd1.
  destruct (decide (pred_cls_of pred = AllDead)) as [Hall|Hall].
  - rewrite lookup_delete_eq in Hd1. destruct Hd1 as [_ Hr].
    rewrite (Hr Hall). by eexists _, _.
  - rewrite lookup_insert_eq in Hd1. cbn [value_in] in Hd1.
    destruct Hd1 as [-> _]. by eexists _, _.
Qed.

Lemma repeated_entry_with_target_fails_witness :
  (2 <= Nat.min (length sample_teams.*1) 2)%nat
  ∧ dict_at sample_store 0 !! "target" = Some (VStr "left_team")
  ∧ ∃ e s',
      make_team_tasks sample_resolver sample_teams
        (replicate 2 (VStr "team", PType (PredClass "P"), 0%nat)) sample_store
      = (inl e, s').
Proof.
  assert (2 <= Nat.min (length sample_teams.*1) 2)%nat as Hn
    by (vm_compute; lia).
  assert (dict_at sample_store 0 !! "target" = Some (VStr "left_team")) as Ht
    by (vm_compute; reflexivity).
  split; [exact Hn|]. split; [exact Ht|].
  exact (repeated_entry_with_target_fails sample_resolver sample_teams
           (VStr "team") (PType (PredClass "P")) 0 2 sample_store
           (VStr "left_team") Hn Ht).
Defined.

(** ** The tasks that make_team_tasks creates *)

Lemma create_task_alloc (p : Predicate) (task_cls : value)
    (a : option assignee_arg) (s s' : state) (l : nat) :
  create_task p task_cls a s = (inr l, s') →
  l = length (objects s) ∧ ∃ t, objects s' = objects s ++ [t].
Proof.
  unfold create_task. destruct task_cls as [| | | |c]; try done.
  unfold new_Task. rewrite bind_run. unfold lift.
  destruct (Task_init c p _ 1%Qc) as [e|t]; [done|].
  intros [= <- <-]. split; [done|]. by exists t.
Qed.

Lemma list_comp_alloc {A : Type} (f : A → M nat) (l : list A) :
  (∀ x s r s', f x s = (inr r, s') →
     r = length (objects s) ∧ ∃ t, objects s' = objects s ++ [t]) →
  ∀ s rs s', list_comp f l s = (inr rs, s') →
    rs = seq (length (objects s)) (length l)
    ∧ ∃ news, objects s' = objects s ++ news ∧ length news = length l.
Proof.
  intros Hf. induction l as [|x l IH]; intros s rs s' Hrun.
  - injection Hrun as <- <-. split; [done|].
    exists []. by rewrite app_nil_r.
  - cbn [list_comp] in Hrun. rewrite bind_run in Hrun.
    destruct (f x s) as [[e|y] s1] eqn:Hx; [done|].
    rewrite bind_run in Hrun.
    destruct (list_comp f l s1) as [[e|ys] s2] eqn:Hl; [done|].
    injection Hrun as <- <-.
    destruct (Hf _ _ _ _ Hx) as [-> [t Ht]].
    destruct (IH _ _ _ Hl) as [-> (news & Hnews & Hlen)].
    rewrite Ht, length_app, Nat.add_1_r. split; [done|].
    exists (t :: news). rewrite Hnews, Ht, <- app_assoc.
    split; [done|]. cbn. by rewrite Hlen.
Qed.

(** The new instances of the last phase of the loop body: appended to
    the store, returned in order after [tasks]; one for 'team', one
    per member of the team for 'agent'. *)
Lemma create_tasks_alloc (teams : teams_layout) (team_id : team_key)
    (reward_to : value) (pc : pred_cls) (predicate : option Predicate)
    (task_cls : value) (d : nat) (tasks tasks' : list nat) (s s' : state) :
  value_in reward_to REWARD_TO = true →
  create_tasks teams team_id reward_to pc predicate task_cls d tasks s
  = (inr tasks', s') →
  ∃ members news,
    teams_get teams team_id = inr members
    ∧ objects s' = objects s ++ news
    ∧ tasks' = tasks ++ seq (length (objects s)) (length news)
    ∧ length news = if decide (reward_to = VStr "team") then 1%nat
                    else length members.
Proof.
  intros Hrt. unfold create_tasks.
  assert (∀ (f : Z → M nat) members,
    (∀ x s r s', f x s = (inr r, s') →
       r = length (objects s) ∧ ∃ t, objects s' = objects s ++ [t]) →
    (ts ← list_comp f members; mret (tasks ++ ts)) s = (inr tasks', s') →
    ∃ news, objects s' = objects s ++ news
      ∧ tasks' = tasks ++ seq (length (objects s)) (length news)
      ∧ length news = length members) as Hlist.
  { intros f members Hf Hrun. rewrite bind_run in Hrun.
    destruct (list_comp f members s) as [[e|ts] s1] eqn:Hl; [done|].
    injection Hrun as <- <-.
    destruct (list_comp_alloc f members Hf _ _ _ Hl)
      as [-> (news & Hnews & Hlen)].
    exists news. by rewrite Hlen. }
  assert (∀ p a s0,
    (t ← create_task p task_cls a; mret (tasks ++ [t])) s0 = (inr tasks', s') →
    ∃ news, objects s' = objects s0 ++ news
      ∧ tasks' = tasks ++ seq (length (objects s0)) (length news)
      ∧ length news = 1%nat) as Hone.
  { intros p a s0 Hrun. rewrite bind_run in Hrun.
    destruct (create_task p task_cls a s0) as [[e|l] s1] eqn:Hc; [done|].
    injection Hrun as <- <-.
    destruct (create_task_alloc _ _ _ _ _ _ Hc) as [-> [t Ht]].
    by exists [t]. }
  destruct (decide (reward_to = VStr "team")) as [Hteam|Hteam].
  - rewrite bind_run. unfold lift.
    destruct (teams_get teams team_id) as [e|members]; [done|].
    intros Hrun. exists members.
    destruct predicate as [p|].
    + destruct (Hone _ _ _ Hrun) as (news & ? & ? & ?). by exists news.
    + rewrite bind_run in Hrun.
      destruct (Group_init (AIter members)) as [e|g]; [done|].
      rewrite bind_run in Hrun. unfold dict_read in Hrun.
      destruct (Hone _ _ _ Hrun) as (news & ? & ? & ?). by exists news.
  - destruct (decide (reward_to = VStr "agent")) as [Hagent|Hagent].
    + rewrite bind_run. unfold lift.
      destruct (teams_get teams team_id) as [e|members]; [done|].
      intros Hrun. exists members.
      destruct predicate as [p|].
      * apply Hlist in Hrun as (news & ? & ? & ?); [by exists news|].
        intros x s0 r s1. apply create_task_alloc.
      * rewrite bind_run in Hrun. unfold dict_read in Hrun.
        unfold make_same_task in Hrun.
        apply Hlist in Hrun as (news & ? & ? & ?); [by exists news|].
        intros x s0 r s1 Hx. rewrite bind_run in Hx. unfold lift in Hx.
        cbn [Group_init] in Hx. by apply create_task_alloc in Hx.
    + exfalso. destruct reward_to as [sym| | | |]; try done.
      cbn in Hrt. apply bool_decide_eq_true in Hrt.
      unfold REWARD_TO in Hrt.
      rewrite !elem_of_cons, elem_of_nil in Hrt.
      destruct Hrt as [->|[->|[]]]; done.
Qed.

Section TeamTaskObjects.

Variable get_target_agent : teams_layout → team_key → string → list Z.

(** The first phases of the loop body leave the Task instances alone
    and hand over to [create_tasks]. *)
Lemma assign_entry_creates (teams : teams_layout) (team_id : team_key)
    (reward_to : value) (pred : predicate_arg) (d : nat)
    (tasks tasks' : list nat) (s s' : state) :
  assign_entry get_target_agent teams team_id (reward_to, pred, d) tasks s
  = (inr tasks', s') →
  value_in reward_to REWARD_TO = true
  ∧ ∃ s0 predicate task_cls,
      objects s0 = objects s
      ∧ create_tasks teams team_id reward_to (pred_cls_of pred) predicate
          task_cls d tasks s0 = (inr tasks', s').
Proof.
  intros Hrun. unfold assign_entry in Hrun.
  destruct (value_in reward_to REWARD_TO) eqn:Hrt; cbn [assert_] in Hrun;
    [|done].
  split; [done|].
  rewrite bind_run in Hrun. cbn [mret M_ret] in Hrun.
  destruct (take_task_cls_run d s) as (s1 & H1 & (Ho1 & _ & _)).
  rewrite bind_run, H1, bind_run in Hrun.
  pose proof (take_target_run get_target_agent teams team_id d s1) as H2.
  destruct (take_target get_target_agent teams team_id d s1)
    as [[e|target] s2] eqn:Htt; [done|].
  assert (objects s2 = objects s) as Ho2.
  { destruct (dict_at s1 d !! "target") as [v|].
    - destruct (value_in v VALID_TARGET).
      + destruct H2 as (sym & s2' & _ & _ & [= _ <-] & (Ho & _ & _)).
        congruence.
      + by destruct H2 as (s2' & [=] & _).
    - injection H2 as _ <-. done. }
  rewrite bind_run in Hrun.
  pose proof (special_predicate_run (pred_cls_of pred) target d s2) as H3.
  destruct (special_predicate (pred_cls_of pred) target d s2)
    as [[e|predicate] s3] eqn:Hsp; [done|].
  assert (objects s3 = objects s) as Ho3.
  { destruct (decide (pred_cls_of pred = AllDead)).
    - destruct (dict_at s2 d !! "target") as [v|]; [|done].
      destruct H3 as (s3' & (Ho & _ & _) & H3).
      destruct (Group_init _); [done|]. injection H3 as _ <-. congruence.
    - injection H3 as _ <-. done. }
  by exists s3, predicate, (default (VCls cls_Task) (dict_at s d !! "task_cls")).
Qed.

Lemma team_tasks_loop_alloc (teams : teams_layout)
    (task_spec : list spec_entry) (idxs : list nat) :
  ∀ tasks s tasks' s',
    team_tasks_loop get_target_agent teams task_spec tasks idxs s
    = (inr tasks', s') →
    ∃ news, objects s' = objects s ++ news
      ∧ tasks' = tasks ++ seq (length (objects s)) (length news).
Proof.
  induction idxs as [|i idxs IH]; intros tasks s tasks' s' Hrun.
  - injection Hrun as <- <-. exists []. by rewrite !app_nil_r.
  - cbn [team_tasks_loop] in Hrun. rewrite bind_run in Hrun.
    destruct (team_tasks_step get_target_agent teams task_spec tasks i s)
      as [[e|tasks1] s1] eqn:Hstep; [done|].
    rewrite team_tasks_step_run in Hstep.
    destruct (bound_entry teams task_spec i)
      as [e|[team_id [[reward_to pred] d]]]; [done|].
    apply assign_entry_creates in Hstep
      as (Hrt & s0 & predicate & task_cls & Ho & Hct).
    apply create_tasks_alloc in Hct
      as (members & news1 & _ & Hn1 & -> & _); [|done].
    destruct (IH _ _ _ _ Hrun) as (news2 & Hn2 & ->).
    exists (news1 ++ news2). rewrite Hn2, Hn1, Ho, <- !app_assoc.
    split; [done|]. f_equal.
    by rewrite !length_app, seq_app.
Qed.

End TeamTaskObjects.

(** X19: the list that [make_team_tasks] returns is exactly the
    references of the Task instances that the call created, in the
    order of creation: each new instance once, no older instance, and
    the older instances are left as they were. *)
Theorem make_team_tasks_returns_new_tasks
    (resolver : teams_layout → team_key → string → list Z)
    (teams : teams_layout) (task_spec : list spec_entry)
    (tasks : list nat) (s s' : state) :
  make_team_tasks resolver teams task_spec s = (inr tasks, s') →
  ∃ news,
    objects s' = objects s ++ news
    ∧ tasks = seq (length (objects s)) (length news)
    ∧ NoDup tasks
    ∧ ∀ l t, objects s !! l = Some t → objects s' !! l = Some t ∧ l ∉ tasks.
Proof.
  intros Hrun. unfold make_team_tasks in Hrun.
  apply team_tasks_loop_alloc in Hrun as (news & Hnews & Htasks).
  cbn [app] in Htasks. exists news.
  split; [done|]. split; [done|]. subst tasks.
  split; [apply NoDup_seq|].
  intros l t Hl. split.
  - rewrite Hnews. by apply lookup_app_l_Some.
  - rewrite elem_of_seq. apply lookup_lt_Some in Hl. lia.
Qed.

Lemma make_team_tasks_returns_new_tasks_witness :
  let task_spec := [(VStr "agent", PFunction "pred", 0%nat)] in
  let out := make_team_tasks sample_resolver sample_teams task_spec
               sample_store in
  out = (inr [0; 1]%nat, out.2) ∧ NoDup [0; 1]%nat.
Proof.
  intros task_spec out.
  assert (out = (inr [0; 1]%nat, out.2)) as Hrun by (vm_compute; reflexivity).
  split; [exact Hrun|].
  destruct (make_team_tasks_returns_new_tasks sample_resolver sample_teams
              task_spec [0; 1]%nat sample_store out.2 Hrun)
    as (news & _ & _ & Hnd & _).
  exact Hnd.
Defined.

(** X20: an iteration of the loop that returns has created one task
    when [reward_to] is 'team' and one task per member of the team when
    it is 'agent', and has appended their references to the list. *)
Theorem team_entry_task_count
    (resolver : teams_layout → team_key → string → list Z)
    (teams : teams_layout) (team_id : team_key) (reward_to : value)
    (pred : predicate_arg) (d : nat) (tasks tasks' : list nat)
    (s s' : state) :
  assign_entry resolver teams team_id (reward_to, pred, d) tasks s
  = (inr tasks', s') →
  ∃ members news,
    teams_get teams team_id = inr members
    ∧ objects s' = objects s ++ news
    ∧ tasks' = tasks ++ seq (length (objects s)) (length news)
    ∧ (reward_to = VStr "team" → length news = 1%nat)
    ∧ (reward_to = VStr "agent" → length news = length members).
Proof.
  intros Hrun.
  apply assign_entry_creates in Hrun
    as (Hrt & s0 & predicate & task_cls & Ho & Hct).
  apply create_tasks_alloc in Hct
    as (members & news & Hget & Hnews & -> & Hlen); [|done].
  exists members, news. rewrite <- Ho.
  split; [done|]. split; [done|]. split; [done|]. split.
  - intros ->. by rewrite decide_True in Hlen.
  - intros ->. by rewrite decide_False in Hlen.
Qed.

Lemma team_entry_task_count_witness :
  let out := assign_entry sample_resolver sample_teams (KInt 1)
               (VStr "agent", PFunction "pred", 0%nat) [] (mkState ∅ []) in
  out = (inr [0; 1]%nat, out.2)
  ∧ ∃ members news,
      teams_get sample_teams (KInt 1) = inr members
      ∧ objects out.2 = news
      ∧ length news = length members.
Proof.
  intros out.
  assert (out = (inr [0; 1]%nat, out.2)) as Hrun by (vm_compute; reflexivity).
  split; [exact Hrun|].
  destruct (team_entry_task_count sample_resolver sample_teams (KInt 1)
              (VStr "agent") (PFunction "pred") 0 [] [0; 1]%nat
              (mkState ∅ []) out.2 Hrun)
    as (members & news & Hget & Hnews & _ & _ & Hlen).
  exists members, news. split; [exact Hget|]. split; [exact Hnews|].
  by apply Hlen.
Defined.

Lemma assign_entry_checked
    (resolver : teams_layout → team_key → string → list Z)
    (teams : teams_layout) (team_id : team_key) (reward_to : value)
    (pred : predicate_arg) (d : nat) (tasks : list nat) (s : state) :
  value_in reward_to REWARD_TO = true →
  assign_entry resolver teams team_id (reward_to, pred, d) tasks s
  = (task_cls ← take_task_cls d;
     target ← take_target resolver teams team_id d;
     predicate ← special_predicate (pred_cls_of pred) target d;
     create_tasks teams team_id reward_to (pred_cls_of pred) predicate
       task_cls d tasks) s.
Proof. intros Hrt. unfold assign_entry. by rewrite Hrt. Qed.

(** X21: for a 'team' spec on [bp.AllDead] with a relative target,
    the one task of the team is assigned to the members of the team
    while its predicate is instantiated on the resolved target agents,
    with [target] and [task_cls] taken out of its kwargs. *)
Theorem all_dead_team_task
    (resolver : teams_layout → team_key → string → list Z)
    (teams : teams_layout) (team_id : team_key) (pred : predicate_arg)
    (d : nat) (tasks : list nat) (s : state) (sym : string) (c : task_cls)
    (members : list Z) :
  pred_cls_of pred = AllDead →
  dict_at s d !! "target" = Some (VStr sym) → sym ∈ VALID_TARGET →
  default (VCls cls_Task) (dict_at s d !! "task_cls") = VCls c →
  teams_get teams team_id = inr members → (0 < length members)%nat →
  (0 < length (resolver teams team_id sym))%nat →
  ∃ s',
    assign_entry resolver teams team_id (VStr "team", pred, d) tasks s
    = (inr (tasks ++ [length (objects s)]), s')
    ∧ objects s'
      = objects s
        ++ [mkTask c
              (mkPredicate AllDead
                 (mkGroup (remove_dups (resolver teams team_id sym)))
                 (delete "target" (delete "task_cls" (dict_at s d))))
              (elements (list_to_set members : gset Z)) 0%Qc false 1%Qc].
Proof.
  intros Hall Hk Hsym Htc Hget Hmem Hids.
  rewrite assign_entry_checked by done.
  destruct (take_task_cls_run d s) as (s1 & H1 & (Ho1 & Hk1 & _)).
  rewrite bind_run, H1, bind_run, Htc.
  pose proof (take_target_run resolver teams team_id d s1) as H2.
  rewrite Hk1, lookup_delete_ne, Hk in H2 by done.
  cbn [value_in] in H2. rewrite bool_decide_eq_true_2 in H2 by done.
  destruct H2 as (sym' & s2 & [= <-] & _ & H2 & (Ho2 & Hk2 & _)).
  rewrite H2, bind_run.
  pose proof (special_predicate_run (pred_cls_of pred)
                (Some (resolver teams team_id sym)) d s2) as H3.
  rewrite decide_True, Hk2, lookup_insert_eq in H3 by done.
  destruct H3 as (s3 & (Ho3 & _ & _) & H3). rewrite H3.
  cbn [from_option id Group_init]. rewrite decide_True by done.
  unfold create_tasks. rewrite decide_True by done.
  rewrite bind_run. unfold lift. rewrite Hget, bind_run, create_task_run.
  cbn [from_option id Task_init]. rewrite decide_True by done.
  cbn [mret M_ret]. eexists. split; [by rewrite Ho3, Ho2, Ho1|].
  cbn [objects]. by rewrite Hall, delete_insert_eq.
Qed.

Lemma all_dead_team_task_witness :
  let out := assign_entry sample_resolver sample_teams (KInt 0)
               (VStr "team", PType AllDead, 0%nat) [] sample_store in
  pred_cls_of (PType AllDead) = AllDead
  ∧ dict_at sample_store 0 !! "target" = Some (VStr "left_team")
  ∧ "left_team" ∈ VALID_TARGET
  ∧ ∃ s', out = (inr [0%nat], s')
          ∧ (agents ∘ subject ∘ eval_fn <$> objects s') = [[3; 4]].
Proof.
  intros out.
  assert (dict_at sample_store 0 !! "target" = Some (VStr "left_team")) as Hk
    by (vm_compute; reflexivity).
  assert ("left_team" ∈ VALID_TARGET) as Hsym by apply list_elem_of_here.
  assert (default (VCls cls_Task) (dict_at sample_store 0 !! "task_cls")
          = VCls cls_OngoingTask) as Htc by (vm_compute; reflexivity).
  split; [reflexivity|]. split; [exact Hk|]. split; [exact Hsym|].
  destruct (all_dead_team_task sample_resolver sample_teams (KInt 0)
              (PType AllDead) 0 [] sample_store "left_team" cls_OngoingTask
              [1; 2] eq_refl Hk Hsym Htc eq_refl) as (s' & Hrun & Hobj).
  - cbn. lia.
  - cbn. lia.
  - exists s'. split; [exact Hrun|]. rewrite Hobj. reflexivity.
Defined.

(** X22: for a 'team' spec on any other predicate with a relative
    target, the one task of the team is assigned to the members of the
    team, its predicate is instantiated on the team, and the resolved
    target agents reach the predicate through its kwargs. *)
Theorem team_task_gets_resolved_target
    (resolver : teams_layout → team_key → string → list Z)
    (teams : teams_layout) (team_id : team_key) (pred : predicate_arg)
    (d : nat) (tasks : list nat) (s : state) (sym : string) (c : task_cls)
    (members : list Z) :
  pred_cls_of pred ≠ AllDead →
  dict_at s d !! "target" = Some (VStr sym) → sym ∈ VALID_TARGET →
  default (VCls cls_Task) (dict_at s d !! "task_cls") = VCls c →
  teams_get teams team_id = inr members → (0 < length members)%nat →
  ∃ s',
    assign_entry resolver teams team_id (VStr "team", pred, d) tasks s
    = (inr (tasks ++ [length (objects s)]), s')
    ∧ objects s'
      = objects s
        ++ [mkTask c
              (mkPredicate (pred_cls_of pred) (mkGroup (remove_dups members))
                 (<["target" := VIds (resolver teams team_id sym)]>
                    (delete "task_cls" (dict_at s d))))
              (elements (list_to_set (remove_dups members) : gset Z))
              0%Qc false 1%Qc].
Proof.
  intros Hall Hk Hsym Htc Hget Hmem.
  rewrite assign_entry_checked by done.
  destruct (take_task_cls_run d s) as (s1 & H1 & (Ho1 & Hk1 & _)).
  rewrite bind_run, H1, bind_run, Htc.
  pose proof (take_target_run resolver teams team_id d s1) as H2.
  rewrite Hk1, lookup_delete_ne, Hk in H2 by done.
  cbn [value_in] in H2. rewrite bool_decide_eq_true_2 in H2 by done.
  destruct H2 as (sym' & s2 & [= <-] & _ & H2 & (Ho2 & Hk2 & _)).
  rewrite H2, bind_run.
  pose proof (special_predicate_run (pred_cls_of pred)
                (Some (resolver teams team_id sym)) d s2) as H3.
  rewrite decide_False in H3 by done. rewrite H3.
  unfold create_tasks. rewrite decide_True by done.
  rewrite bind_run. unfold lift. rewrite Hget, bind_run.
  cbn [Group_init]. rewrite decide_True by done.
  rewrite bind_run. unfold dict_read. rewrite bind_run, create_task_run.
  cbn [from_option id subject agents Task_init].
  assert (0 < length (remove_dups members))%nat as Hlen.
  { destruct members as [|x members]; [cbn in Hmem; lia|].
    assert (x ∈ remove_dups (x :: members)) as Hx
      by (apply elem_of_remove_dups, list_elem_of_here).
    destruct (remove_dups (x :: members)); [by apply elem_of_nil in Hx|].
    cbn. lia. }
  rewrite decide_True by done. cbn [mret M_ret].
  eexists. split; [by rewrite Ho2, Ho1|].
  cbn [objects]. by rewrite Hk2.
Qed.

Lemma team_task_gets_resolved_target_witness :
  let out := assign_entry sample_resolver sample_teams (KInt 0)
               (VStr "team", PFunction "pred", 0%nat) [] sample_store in
  pred_cls_of (PFunction "pred") ≠ AllDead
  ∧ dict_at sample_store 0 !! "target" = Some (VStr "left_team")
  ∧ "left_team" ∈ VALID_TARGET
  ∧ ∃ s', out = (inr [0%nat], s')
          ∧ (λ t, pred_kwargs (eval_fn t) !! "target") <$> objects s'
            = [Some (VIds [3; 4])].
Proof.
  intros out.
  assert (pred_cls_of (PFunction "pred") ≠ AllDead) as Hall by discriminate.
  assert (dict_at sample_store 0 !! "target" = Some (VStr "left_team")) as Hk
    by (vm_compute; reflexivity).
  assert ("left_team" ∈ VALID_TARGET) as Hsym by apply list_elem_of_here.
  assert (default (VCls cls_Task) (dict_at sample_store 0 !! "task_cls")
          = VCls cls_OngoingTask) as Htc by (vm_compute; reflexivity).
  split; [exact Hall|]. split; [exact Hk|]. split; [exact Hsym|].
  destruct (team_task_gets_resolved_target sample_resolver sample_teams
              (KInt 0) (PFunction "pred") 0 [] sample_store "left_team"
              cls_OngoingTask [1; 2] Hall Hk Hsym Htc eq_refl)
    as (s' & Hrun & Hobj).
  - cbn. lia.
  - exists s'. split; [exact Hrun|]. rewrite Hobj.
    change ([(<["target" := VIds [3; 4]]>
                (delete "task_cls" (dict_at sample_store 0))
              : gmap string value) !! "target"] = [Some (VIds [3; 4])]).
    by rewrite lookup_insert_eq.
Defined.
